(** * HemeLB: near-wall collision operator, pixel flags and colloid boundaries

    A shallow embedding of

    - [vis/ColPixel.h]: the pixel coordinates that share their word with
      a flag bit,
    - [lb/collisions/ImplGuoZhengShi.cc]: the collision-streaming loop with
      the Guo-Zheng-Shi wall treatment,
    - [colloids/BoundaryConditions.cc]: the dispatch of colloid boundary
      conditions for one particle,
    - [lb/io.cc]: the moments written to a snapshot, the plans of the
      two snapshot writers and the broadcast of the inlet and outlet
      parameters,

    followed by the properties established about them.

    Conventions.  A C++ [double] is idealised as a real number of [R]; the
    results below are therefore statements of exact arithmetic.  An
    [unsigned int] is a [Z] in the range [0, 2^32), and an [int] that
    grows with the size of the input is a [Z] taken back into
    [-2^31, 2^31) after each operation.  Arrays addressed through
    raw pointers ([FOld], [FNew], [f_neq]) are total maps from the index to
    the value; indices and loop counters are [nat]. *)

From Stdlib Require Import ZArith Lia List Bool Reals Lra Permutation.
From Stdlib Require String.
Import ListNotations.

(* ================================================================== *)
(** * vis/ColPixel.h *)
(* ================================================================== *)

Module ColPixel.
Local Open Scope Z_scope.

  (** [static const unsigned int mMostSignificantBit = 1 << 31;] *)
Definition mMostSignificantBit : Z := Z.shiftl 1 31.

  (** [~x] on a 32-bit [unsigned int]. *)
Definition unot (x : Z) : Z := Z.lnot x mod 2 ^ 32.

  (** The two words of the pixel that carry a coordinate and a flag.  The
      ray data and the streakline data of the class are not touched by
      the accessors below. *)
Record t : Set := mk { mI : Z; mJ : Z }.

Definition SetI (iI : Z) (p : t) : t :=
    mk (Z.lor iI (Z.land (mI p) mMostSignificantBit)) (mJ p).

Definition SetJ (iJ : Z) (p : t) : t :=
    mk (mI p) (Z.lor iJ (Z.land (mJ p) mMostSignificantBit)).

Definition GetI (p : t) : Z := Z.land (mI p) (unot mMostSignificantBit).

Definition GetJ (p : t) : Z := Z.land (mJ p) (unot mMostSignificantBit).

Definition SetGlyph (iIsGlyph : bool) (p : t) : t :=
    if iIsGlyph
    then mk (Z.lor (mI p) mMostSignificantBit) (mJ p)
    else mk (Z.land (mI p) (unot mMostSignificantBit)) (mJ p).

  (** The conversion of an [unsigned int] to [bool]: non-zero is true. *)
Definition IsGlyph (p : t) : bool :=
    negb (Z.land (mI p) mMostSignificantBit =? 0).

Definition SetStreakline (iIsStreakline : bool) (p : t) : t :=
    if iIsStreakline
    then mk (mI p) (Z.lor (mJ p) mMostSignificantBit)
    else mk (mI p) (Z.land (mJ p) (unot mMostSignificantBit)).

Definition IsStreakline (p : t) : bool :=
    negb (Z.land (mJ p) mMostSignificantBit =? 0).

  (** A call of one of the four setters, and a sequence of such calls on
      one pixel. *)
Inductive call : Set :=
  | CallSetI (iI : Z)
  | CallSetJ (iJ : Z)
  | CallSetGlyph (iIsGlyph : bool)
  | CallSetStreakline (iIsStreakline : bool).

Definition perform (p : t) (c : call) : t :=
    match c with
    | CallSetI iI => SetI iI p
    | CallSetJ iJ => SetJ iJ p
    | CallSetGlyph b => SetGlyph b p
    | CallSetStreakline b => SetStreakline b p
    end.

Definition perform_all (cs : list call) (p : t) : t := fold_left perform cs p.

  (** What the four getters report. *)
Record view : Set := mkview { vI : Z; vJ : Z; vGlyph : bool; vStreakline : bool }.

Definition observe (p : t) : view :=
    mkview (GetI p) (GetJ p) (IsGlyph p) (IsStreakline p).

  (** The reference behaviour of the setters: four independent cells, each
      holding the argument of the last call of its own setter. *)
Definition remember (v : view) (c : call) : view :=
    match c with
    | CallSetI iI => mkview iI (vJ v) (vGlyph v) (vStreakline v)
    | CallSetJ iJ => mkview (vI v) iJ (vGlyph v) (vStreakline v)
    | CallSetGlyph b => mkview (vI v) (vJ v) b (vStreakline v)
    | CallSetStreakline b => mkview (vI v) (vJ v) (vGlyph v) b
    end.

  (** A coordinate that leaves the flag bit alone. *)
Definition coordinate (c : call) : Prop :=
    match c with
    | CallSetI i | CallSetJ i => 0 <= i < 2 ^ 31
    | _ => True
    end.
End ColPixel.

(* ================================================================== *)
(** * The D3Q15 lattice *)
(* ================================================================== *)

Module D3Q15.
Local Open Scope R_scope.

  (** Modelled from the spec: the class [D3Q15] (velocity set, inverse
      directions, [CalculateFeq], [CalculateDensityVelocityFEq]) is not
      among the sources; only calls of it are.  The specification asks for
      a fixed set of direction vectors with the rest vector first and an
      involutive inverse table (section 3), the density as the sum of the
      entries, the velocity as the sum of the direction vectors weighted
      by the entries and divided by the density, and the standard
      second-order equilibrium in that velocity (section 4.1).  The
      fifteen vectors are the rest vector, the six faces and the eight
      corners of the cube, with the faces at 1 to 6 as
      [colloids/BoundaryConditions.cc] expects. *)
Definition NUMVECTORS : nat := 15.

Definition CX : list R := [0; 1; -1; 0; 0; 0; 0; 1; -1; 1; -1; 1; -1; 1; -1].
Definition CY : list R := [0; 0; 0; 1; -1; 0; 0; 1; -1; 1; -1; -1; 1; -1; 1].
Definition CZ : list R := [0; 0; 0; 0; 0; 1; -1; 1; -1; -1; 1; 1; -1; -1; 1].

Definition INVERSEDIRECTIONS : list nat :=
    [0; 2; 1; 4; 3; 6; 5; 8; 7; 10; 9; 12; 11; 14; 13]%nat.

  (** Modelled from the spec: the weights of the second-order equilibrium
      on these fifteen vectors. *)
Definition WEIGHTS : list R :=
    [2/9; 1/9; 1/9; 1/9; 1/9; 1/9; 1/9;
     1/72; 1/72; 1/72; 1/72; 1/72; 1/72; 1/72; 1/72].

Definition Rsum (l : list R) : R := fold_right Rplus 0 l.

  (** The sum of the direction components [c] weighted by the entries
      of [f]. *)
Fixpoint moment (c f : list R) : R :=
    match c, f with
    | ci :: c', fi :: f' => ci * fi + moment c' f'
    | _, _ => 0
    end.

  (** Modelled from the spec: the second-order equilibrium expansion,
      [w_i rho (1 + 3 c_i.u + 9/2 (c_i.u)^2 - 3/2 u.u)]. *)
Definition feq_i (density v_x v_y v_z : R) (i : nat) : R :=
    let cu := nth i CX 0 * v_x + nth i CY 0 * v_y + nth i CZ 0 * v_z in
    nth i WEIGHTS 0 * density
    * (1 + 3 * cu + 9 / 2 * (cu * cu)
       - 3 / 2 * (v_x * v_x + v_y * v_y + v_z * v_z)).

Definition CalculateFeq (density v_x v_y v_z : R) : list R :=
    map (feq_i density v_x v_y v_z) (seq 0 NUMVECTORS).

  (** Modelled from the spec: density, velocity and equilibrium of a
      distribution vector; the out-parameters
      [density, v_x, v_y, v_z, f_eq] are returned as a tuple. *)
Definition CalculateDensityVelocityFEq (f : list R)
    : R * R * R * R * list R :=
    let density := Rsum f in
    let v_x := moment CX f / density in
    let v_y := moment CY f / density in
    let v_z := moment CZ f / density in
    (density, v_x, v_y, v_z, CalculateFeq density v_x v_y v_z).
End D3Q15.

(* ================================================================== *)
(** * lb/collisions/ImplGuoZhengShi.cc *)
(* ================================================================== *)

Module ImplGuoZhengShi.
Local Open Scope R_scope.
Import D3Q15.

  (** The part of [LocalLatticeData] the collision operator uses.  The
      class is declared outside the sources at hand, so its arrays and
      accessors are the fields of a record: the two distribution arrays,
      the slot of [FNew] a post-collision value streams to, the wall
      flag and the cut distance of a site in a direction. *)
Record LocalLatticeData : Type := mkLat {
    FOld : nat -> R;
    FNew : nat -> R;
    GetStreamedIndex : nat -> nat -> nat;
    HasBoundary : nat -> nat -> bool;
    GetCutDistance : nat -> nat -> R
  }.

  (** [LbmParameters]: only [Omega] is read here. *)
Record LbmParameters : Type := mkParams { Omega : R }.

  (** [m[i] = v] *)
Definition store (m : nat -> R) (i : nat) (v : R) : nat -> R :=
    fun j => if Nat.eqb j i then v else m j.

  (** The lattice data with [FNew] replaced. *)
Definition with_FNew (lat : LocalLatticeData) (m : nat -> R)
  : LocalLatticeData :=
  mkLat (FOld lat) m
        (GetStreamedIndex lat) (HasBoundary lat) (GetCutDistance lat).

(** [bLocalLatDat.FNew[i] = v] *)
Definition set_FNew (lat : LocalLatticeData) (i : nat) (v : R)
  : LocalLatticeData :=
  with_FNew lat (store (FNew lat) i v).

  (** The [NUMVECTORS] entries behind the pointer [&m[base]]. *)
Definition window (m : nat -> R) (base : nat) : list R :=
    map (fun ii => m (base + ii)%nat) (seq 0 NUMVECTORS).

  (** Body of the first inner loop (lines 51-55): the non-equilibrium part
      is kept in [f_neq] and the relaxed value goes to the streamed slot. *)
Definition collide_stream (iLbmParams : LbmParameters) (lIndex : nat)
      (f lFEq : list R) (st : LocalLatticeData * (nat -> R)) (ii : nat)
    : LocalLatticeData * (nat -> R) :=
    let (lat, f_neq) := st in
    let d := nth ii f 0 - nth ii lFEq 0 in
    (set_FNew lat (GetStreamedIndex lat lIndex ii)
              (nth ii f 0 + Omega iLbmParams * d),
     store f_neq ii d).

  (** Lines 64-113: the wall velocity [uWall] and the non-equilibrium part
      [fNeq] for the wall in direction [l], after the optional
      interpolation with the next node away from the wall. *)
Definition wall_estimate (lat : LocalLatticeData) (lIndex l : nat)
      (v_x v_y v_z : R) (f_neq : nat -> R) : (R * R * R) * R :=
    let lAwayFromWallIndex := nth l INVERSEDIRECTIONS 0%nat in
    let delta := GetCutDistance lat lIndex l in
    let uWall0 := (1 - 1 / delta) * v_x in
    let uWall1 := (1 - 1 / delta) * v_y in
    let uWall2 := (1 - 1 / delta) * v_z in
    let fNeq := f_neq lAwayFromWallIndex in
    if Rlt_dec delta 0.75 then
      if negb (HasBoundary lat lIndex lAwayFromWallIndex) then
        let nextIOut :=
          (GetStreamedIndex lat lIndex lAwayFromWallIndex / NUMVECTORS)%nat in
        let '(nextNodeDensity, nextNodeV0, nextNodeV1, nextNodeV2, nextNodeFEq) :=
          CalculateDensityVelocityFEq
            (window (FOld lat) (nextIOut * NUMVECTORS)) in
        ((delta * uWall0 + (1 - delta) * (delta - 1) * nextNodeV0 / (1 + delta),
          delta * uWall1 + (1 - delta) * (delta - 1) * nextNodeV1 / (1 + delta),
          delta * uWall2 + (1 - delta) * (delta - 1) * nextNodeV2 / (1 + delta)),
         delta * fNeq
         + (1 - delta)
           * (FOld lat (nextIOut * NUMVECTORS + lAwayFromWallIndex)
              - nth lAwayFromWallIndex nextNodeFEq 0))
      else ((0, 0, 0), 0)
    else ((uWall0, uWall1, uWall2), fNeq).

  (** Body of the second inner loop (lines 60-125). *)
Definition fill_unstreamed (iLbmParams : LbmParameters) (lIndex : nat)
      (density v_x v_y v_z : R) (f_neq : nat -> R)
      (lat : LocalLatticeData) (l : nat) : LocalLatticeData :=
    let lAwayFromWallIndex := nth l INVERSEDIRECTIONS 0%nat in
    if HasBoundary lat lIndex l then
      let '((uWall0, uWall1, uWall2), fNeq) :=
        wall_estimate lat lIndex l v_x v_y v_z f_neq in
      let fEqTemp := CalculateFeq density uWall0 uWall1 uWall2 in
      set_FNew lat (lIndex * NUMVECTORS + lAwayFromWallIndex)
               (nth lAwayFromWallIndex fEqTemp 0
                + (1 + Omega iLbmParams) * fNeq)
    else lat.

  (** The first inner loop of a site.  [f_neq] is an uninitialised local
      array; every entry is assigned here before it is read. *)
Definition stream_site (iLbmParams : LbmParameters) (lIndex : nat)
      (lat : LocalLatticeData) : LocalLatticeData * (nat -> R) :=
    let f := window (FOld lat) (lIndex * NUMVECTORS) in
    let '(density, v_x, v_y, v_z, lFEq) := CalculateDensityVelocityFEq f in
    fold_left (collide_stream iLbmParams lIndex f lFEq)
              (seq 0 NUMVECTORS) (lat, fun _ => 0).

  (** Both inner loops of a site: the lattice data after line 126 and
      the moments handed to the extrema. *)
Definition collide_site (iLbmParams : LbmParameters) (lIndex : nat)
      (lat : LocalLatticeData) : LocalLatticeData * (R * R * R * R * (nat -> R)) :=
    let f := window (FOld lat) (lIndex * NUMVECTORS) in
    let '(density, v_x, v_y, v_z, lFEq) := CalculateDensityVelocityFEq f in
    let (lat1, f_neq) := stream_site iLbmParams lIndex lat in
    let lat2 :=
      fold_left (fill_unstreamed iLbmParams lIndex density v_x v_y v_z f_neq)
                (seq 1 (NUMVECTORS - 1)) lat1 in
    (lat2, (density, v_x, v_y, v_z, f_neq)).

Section Extrema.
    (** [MinsAndMaxes] and the visualisation control are updated by
        [UpdateMinsAndMaxes] only, which is defined in the base class
        and reads the lattice data: they form one abstract accumulator. *)
Variable MinsAndMaxes : Type.
Variable UpdateMinsAndMaxes :
      bool -> R -> R -> R -> nat -> (nat -> R) -> R ->
      MinsAndMaxes -> LocalLatticeData -> LbmParameters -> MinsAndMaxes.

    (** Body of the loop over the sites (lines 40-130). *)
Definition site_body (tRayTracing : bool) (iLbmParams : LbmParameters)
        (st : MinsAndMaxes * LocalLatticeData) (lIndex : nat)
      : MinsAndMaxes * LocalLatticeData :=
      let (bMinimaAndMaxima, bLocalLatDat) := st in
      let '(lat2, (density, v_x, v_y, v_z, f_neq)) :=
        collide_site iLbmParams lIndex bLocalLatDat in
      (UpdateMinsAndMaxes tRayTracing v_x v_y v_z lIndex f_neq density
                          bMinimaAndMaxima lat2 iLbmParams,
       lat2).

Definition DoCollisionsInternal (tRayTracing : bool)
        (iFirstIndex iSiteCount : nat) (iLbmParams : LbmParameters)
        (bMinimaAndMaxima : MinsAndMaxes) (bLocalLatDat : LocalLatticeData)
      : MinsAndMaxes * LocalLatticeData :=
      fold_left (site_body tRayTracing iLbmParams)
                (seq iFirstIndex iSiteCount)
                (bMinimaAndMaxima, bLocalLatDat).

Definition DoCollisions (iDoRayTracing : bool)
        (iFirstIndex iSiteCount : nat) (iLbmParams : LbmParameters)
        (bMinimaAndMaxima : MinsAndMaxes) (bLocalLatDat : LocalLatticeData)
      : MinsAndMaxes * LocalLatticeData :=
      if iDoRayTracing
      then DoCollisionsInternal true iFirstIndex iSiteCount iLbmParams
                                bMinimaAndMaxima bLocalLatDat
      else DoCollisionsInternal false iFirstIndex iSiteCount iLbmParams
                                bMinimaAndMaxima bLocalLatDat.
End Extrema.

  (** ** Vocabulary of the statements *)

  (** The distribution vector of a site and its moments. *)
Definition distribution (lat : LocalLatticeData) (lIndex : nat) : list R :=
    window (FOld lat) (lIndex * NUMVECTORS).

Definition density_at (lat : LocalLatticeData) (lIndex : nat) : R :=
    let '(density, _, _, _, _) :=
      CalculateDensityVelocityFEq (distribution lat lIndex) in density.

Definition velocity_at (lat : LocalLatticeData) (lIndex : nat) : R * R * R :=
    let '(_, v_x, v_y, v_z, _) :=
      CalculateDensityVelocityFEq (distribution lat lIndex) in (v_x, v_y, v_z).

Definition equilibrium_at (lat : LocalLatticeData) (lIndex : nat) : list R :=
    let '(_, _, _, _, f_eq) :=
      CalculateDensityVelocityFEq (distribution lat lIndex) in f_eq.

  (** [f[d] - f_eq[d]] at a site. *)
Definition non_equilibrium (lat : LocalLatticeData) (lIndex : nat)
    : nat -> R :=
    fun d => FOld lat (lIndex * NUMVECTORS + d)
             - nth d (equilibrium_at lat lIndex) 0.

  (** The value the first inner loop computes for direction [d]. *)
Definition relaxed (iLbmParams : LbmParameters) (lat : LocalLatticeData)
    (lIndex d : nat) : R :=
  FOld lat (lIndex * NUMVECTORS + d)
  + Omega iLbmParams * non_equilibrium lat lIndex d.

(** The value the second inner loop computes for the wall in
    direction [l]. *)
Definition wall_value (iLbmParams : LbmParameters) (lat : LocalLatticeData)
    (lIndex l : nat) : R :=
  let '(v_x, v_y, v_z) := velocity_at lat lIndex in
  let '((uWall0, uWall1, uWall2), fNeq) :=
    wall_estimate lat lIndex l v_x v_y v_z (non_equilibrium lat lIndex) in
  nth (nth l INVERSEDIRECTIONS 0%nat)
      (CalculateFeq (density_at lat lIndex) uWall0 uWall1 uWall2) 0
  + (1 + Omega iLbmParams) * fNeq.

(** A sequence of assignments [m[i] = v], performed from the left. *)
Definition store_all (ws : list (nat * R)) (m : nat -> R) : nat -> R :=
  fold_left (fun m w => store m (fst w) (snd w)) ws m.

(** The assignments to [FNew] of the two inner loops of a site, in the
    order of the program. *)
Definition bulk_writes (iLbmParams : LbmParameters) (lat : LocalLatticeData)
    (lIndex : nat) : list (nat * R) :=
  map (fun d => (GetStreamedIndex lat lIndex d, relaxed iLbmParams lat lIndex d))
      (seq 0 NUMVECTORS).

Definition wall_writes (iLbmParams : LbmParameters) (lat : LocalLatticeData)
    (lIndex : nat) : list (nat * R) :=
  flat_map
    (fun l =>
       if HasBoundary lat lIndex l
       then [((lIndex * NUMVECTORS + nth l INVERSEDIRECTIONS 0)%nat,
              wall_value iLbmParams lat lIndex l)]
       else [])
    (seq 1 (NUMVECTORS - 1)).

Definition site_writes (iLbmParams : LbmParameters) (lat : LocalLatticeData)
    (lIndex : nat) : list (nat * R) :=
  bulk_writes iLbmParams lat lIndex ++ wall_writes iLbmParams lat lIndex.

(** The sum of the first [n] entries of an array: the total mass of a
      buffer of [n / NUMVECTORS] sites. *)
Definition total (m : nat -> R) (n : nat) : R := Rsum (map m (seq 0 n)).

  (** A closed lattice of [iSiteCount] sites without walls: no direction
      of a site is obstructed, every direction streams to a slot of one
      of the sites, and no slot is streamed to twice. *)
Record closed_bulk (lat : LocalLatticeData) (iSiteCount : nat) : Prop := {
    no_wall : forall s d, (s < iSiteCount)%nat -> (d < NUMVECTORS)%nat ->
      HasBoundary lat s d = false;
    streams_inside : forall s d, (s < iSiteCount)%nat -> (d < NUMVECTORS)%nat ->
      (GetStreamedIndex lat s d < iSiteCount * NUMVECTORS)%nat;
    streams_apart : forall s d s' d',
      (s < iSiteCount)%nat -> (d < NUMVECTORS)%nat ->
      (s' < iSiteCount)%nat -> (d' < NUMVECTORS)%nat ->
      GetStreamedIndex lat s d = GetStreamedIndex lat s' d' ->
      s = s' /\ d = d'
  }.
End ImplGuoZhengShi.

(* ================================================================== *)
(** * lb/io.cc: the moments written to a snapshot *)
(* ================================================================== *)

Module LBM.
Local Open Scope R_scope.
Import D3Q15.

(** Lines 632-671 of [WriteConfig] for a site of plain fluid type: the
    moments come from [CalculateDensityVelocityFEq], the three velocity
    components are then divided by the density ([vx /= density]), before
    the conversion to physical units. *)
Definition snapshot_velocity (f : list R) : R * R * R :=
  let '(density, vx, vy, vz, f_eq) := CalculateDensityVelocityFEq f in
  let vx := vx / density in
  let vy := vy / density in
  let vz := vz / density in
  (vx, vy, vz).
End LBM.

(* ================================================================== *)
(** * colloids/BoundaryConditions.cc *)
(* ================================================================== *)

Module BoundaryConditions.
Local Open Scope R_scope.

(** [util::Vector3D<T>] with the componentwise operations the function
    uses. *)
Record Vector3D (T : Type) : Type := mkVector { x : T; y : T; z : T }.
Arguments mkVector {T}.
Arguments x {T}.
Arguments y {T}.
Arguments z {T}.

Definition LatticePosition : Type := Vector3D R.

Definition scale (v : LatticePosition) (k : R) : LatticePosition :=
  mkVector (x v * k) (y v * k) (z v * k).

Definition plus (v w : LatticePosition) : LatticePosition :=
  mkVector (x v + x w) (y v + y w) (z v + z w).

Definition minus (v w : LatticePosition) : LatticePosition :=
  mkVector (x v - x w) (y v - y w) (z v - z w).

Definition Dot (v w : LatticePosition) : R :=
  x v * x w + y v * y w + z v * z w.

Definition GetNormalised (v : LatticePosition) : LatticePosition :=
  scale v (/ sqrt (Dot v v)).

(** The conversion [(site_t) r] of a [double] to an integer: the
    fractional part is discarded. *)
Definition site_t_of (r : R) : Z :=
  if Rle_dec 0 r then Int_part r else (- Int_part (- r))%Z.

Definition position_of (v : Vector3D Z) : LatticePosition :=
  mkVector (IZR (x v)) (IZR (y v)) (IZR (z v)).

Inductive SiteType : Set := SOLID_TYPE | FLUID_TYPE | INLET_TYPE | OUTLET_TYPE.

Definition SiteType_eqb (a b : SiteType) : bool :=
  match a, b with
  | SOLID_TYPE, SOLID_TYPE | FLUID_TYPE, FLUID_TYPE
  | INLET_TYPE, INLET_TYPE | OUTLET_TYPE, OUTLET_TYPE => true
  | _, _ => false
  end.

Record SiteData : Type := mkSiteData { GetSiteType : SiteType; IsEdge : bool }.

Record ConstSite : Type := mkSite {
  GetSiteData : SiteData;
  GetWallDistances : nat -> R
}.

Record LatticeInfo : Type := mkLatticeInfo { GetVector : nat -> LatticePosition }.

(** [geometry::LatticeData], as far as it is consulted here.
    [GetContiguousSiteId] returns its result together with the two
    out-parameters [procId] and [localContiguousId]. *)
Record LatticeData : Type := mkLatticeData {
  GetContiguousSiteId : Vector3D Z -> bool * nat * nat;
  GetSite : nat -> ConstSite;
  GetLatticeInfo : LatticeInfo
}.

(** Lines 123-133: the wall distance of one direction.  A negative
    distance skips the direction ([continue]); a distance above one half
    is replaced by one half. *)
Definition wall_distance (thisDistance : R) : option R :=
  if Rlt_dec thisDistance 0.0 then None
  else Some (if Rgt_dec thisDistance 0.5 then 0.5 else thisDistance).

Section Particles.
(** The colloid particle and the registered boundary conditions.  A
    condition receives the particle by reference: it returns its verdict
    and the particle it leaves behind. *)
Variable Particle : Type.
Variable GetGlobalPosition : Particle -> LatticePosition.

Definition BoundaryCondition : Type :=
  Particle -> list LatticePosition -> bool * Particle.

(** The static members of the class. *)
Record Registry : Type := mkRegistry {
  boundaryConditionsWall : list BoundaryCondition;
  boundaryConditionsInlet : list BoundaryCondition;
  boundaryConditionsOutlet : list BoundaryCondition;
  latticeData : LatticeData
}.

(** Body of the loop over the face directions 1 to 6 (lines 118-143). *)
Definition wall_vector_step (latticeInfo : LatticeInfo)
    (siteWallDistances : nat -> R) (siteGlobalPosition : Vector3D Z)
    (particle : Particle) (particleToWallVectors : list LatticePosition)
    (direction : nat) : list LatticePosition :=
  match wall_distance (siteWallDistances (direction - 1)%nat) with
  | None => particleToWallVectors
  | Some thisDistance =>
      let siteToWall := scale (GetVector latticeInfo direction) thisDistance in
      let particleToSite :=
        minus (position_of siteGlobalPosition) (GetGlobalPosition particle) in
      let particleToWallVector :=
        plus siteToWall
             (scale (GetNormalised siteToWall)
                    (Dot (GetNormalised siteToWall) particleToSite)) in
      particleToWallVectors ++ [particleToWallVector]
  end.

(** One of the three loops over a list of conditions: every condition
    is applied, [keep &= ...]. *)
Definition apply_conditions (conditions : list BoundaryCondition)
    (particleToWallVectors : list LatticePosition)
    (st : bool * Particle) : bool * Particle :=
  fold_left
    (fun (st : bool * Particle) (boundaryCondition : BoundaryCondition) =>
       let (keep, particle) := st in
       let (verdict, particle') :=
         boundaryCondition particle particleToWallVectors in
       (keep && verdict, particle'))
    conditions st.

(** The result is the returned flag and the particle as the call leaves
    it.  The two [printf] calls are diagnostics and are left out. *)
Definition DoSomeThingsToParticle (reg : Registry) (particle : Particle)
  : bool * Particle :=
  let keep := true in
  let siteGlobalPosition :=
    mkVector (site_t_of (0.5 + x (GetGlobalPosition particle)))
             (site_t_of (0.5 + y (GetGlobalPosition particle)))
             (site_t_of (0.5 + z (GetGlobalPosition particle))) in
  let '(isLocalFluid, procId, localContiguousId) :=
    GetContiguousSiteId (latticeData reg) siteGlobalPosition in
  if negb isLocalFluid then (negb keep, particle)
  else
    let latticeInfo := GetLatticeInfo (latticeData reg) in
    let site := GetSite (latticeData reg) localContiguousId in
    let siteData := GetSiteData site in
    let siteType := GetSiteType siteData in
    let siteWallDistances := GetWallDistances site in
    let isNearWall := IsEdge siteData in
    let isNearInlet := SiteType_eqb siteType INLET_TYPE in
    let isNearOutlet := SiteType_eqb siteType OUTLET_TYPE in
    if negb isNearWall && negb isNearInlet && negb isNearOutlet
    then (keep, particle)
    else
      let particleToWallVectors :=
        fold_left (wall_vector_step latticeInfo siteWallDistances
                                    siteGlobalPosition particle)
                  (seq 1 6) [] in
      let st := (keep, particle) in
      let st :=
        if isNearWall
        then apply_conditions (boundaryConditionsWall reg)
                              particleToWallVectors st
        else st in
      let st :=
        if isNearInlet
        then apply_conditions (boundaryConditionsInlet reg)
                              particleToWallVectors st
        else st in
      let st :=
        if isNearOutlet
        then apply_conditions (boundaryConditionsOutlet reg)
                              particleToWallVectors st
        else st in
      st.

(** The lattice site the function looks the particle up at. *)
Definition site_of_particle (particle : Particle) : Vector3D Z :=
  mkVector (site_t_of (0.5 + x (GetGlobalPosition particle)))
           (site_t_of (0.5 + y (GetGlobalPosition particle)))
           (site_t_of (0.5 + z (GetGlobalPosition particle))).
End Particles.

(** ** Vocabulary of the statements *)


End BoundaryConditions.

(* ================================================================== *)
(** * Small lattices the statements are instantiated at *)
(* ================================================================== *)

Module Examples.
Import D3Q15 ImplGuoZhengShi.
Local Open Scope R_scope.

(** Two sites.  Site 0 holds all its mass in the rest direction, site 1
    is at the equilibrium of density one at rest.  Direction 2 of site 0
    streams to site 1; every other direction streams to the site it
    starts from.  The walls and the cut distance are left open. *)
Definition two_sites (walls : nat -> nat -> bool) (delta : R)
  : LocalLatticeData :=
  mkLat (fun i => if (i =? 0)%nat then 1
                  else if ((15 <=? i) && (i <? 30))%nat
                       then nth (i - 15) WEIGHTS 0
                       else 0)
        (fun _ => 0)
        (fun s d => if ((s =? 0) && (d =? 2))%nat then 17%nat
                    else (s * 15 + d)%nat)
        walls
        (fun _ _ => delta).

(** A wall in direction 1 of site 0 only. *)
Definition one_wall (s d : nat) : bool := ((s =? 0) && (d =? 1))%nat.

(** Walls in the opposite directions 1 and 2 of site 0. *)
Definition facing_walls (s d : nat) : bool :=
  ((s =? 0) && ((d =? 1) || (d =? 2)))%nat.

(** Sites without walls whose directions all stream to the site they
    start from, with the distribution [(i + 1) / 10] of the collision
    tests in every slot [i]. *)
Definition periodic_sites : LocalLatticeData :=
  mkLat (fun i => (INR i + 1) / 10)
        (fun _ => 0)
        (fun s d => (s * 15 + d)%nat)
        (fun _ _ => false)
        (fun _ _ => 0.5).

(** An extrema accumulator that records nothing. *)
Definition no_extrema :
  bool -> R -> R -> R -> nat -> (nat -> R) -> R ->
  unit -> LocalLatticeData -> LbmParameters -> unit :=
  fun _ _ _ _ _ _ _ _ _ _ => tt.
End Examples.

Module ColloidExamples.
Import BoundaryConditions.
Local Open Scope R_scope.


(** A lattice whose lookup answers [found] for every position, with
    site 0 as the site found, and whose sites all carry the data
    [siteData] and the wall distances [distances]. *)
Definition uniform_lattice (found : bool) (siteData : SiteData)
    (distances : nat -> R) : LatticeData :=
  mkLatticeData (fun _ => (found, 0%nat, 0%nat))
                (fun _ => mkSite siteData distances)
                (mkLatticeInfo (fun _ => mkVector 1 0 0)).



End ColloidExamples.

(* ================================================================== *)
(** * vis/ColPixel.h: constructors, merging and the pixel index *)
(* ================================================================== *)

Module ColPixelOps.
Import ColPixel.
Local Open Scope Z_scope.

(** The conversion of an [int] argument to the [unsigned int] parameter
    of [SetI] and [SetJ], and of an [unsigned int] to [int]. *)
Definition to_unsigned (i : Z) : Z := i mod 2 ^ 32.

Definition to_int (u : Z) : Z := if u <? 2 ^ 31 then u else u - 2 ^ 32.

(** [ColPixel()], on the words [p] found in the storage of the object. *)
Definition ColPixel_default (p : t) : t := SetGlyph false (SetStreakline false p).

(** [ColPixel(int iI, int iJ, bool iIsGlyph)] *)
Definition ColPixel_glyph (iI iJ : Z) (iIsGlyph : bool) (p : t) : t :=
  SetJ (to_unsigned iJ)
       (SetI (to_unsigned iI) (SetStreakline false (SetGlyph iIsGlyph p))).

(** The words set by
    [ColPixel(int iI, int iJ, float particleVelocity, float particleZ,
    int particleInletId)]. *)
Definition ColPixel_streakline (iI iJ : Z) (p : t) : t :=
  SetJ (to_unsigned iJ)
       (SetI (to_unsigned iI) (SetStreakline true (SetGlyph false p))).

(** The words set by [ColPixel(int iI, int iJ, const RayDataType&)]. *)
Definition ColPixel_ray (iI iJ : Z) (p : t) : t :=
  SetJ (to_unsigned iJ)
       (SetI (to_unsigned iI) (SetStreakline false (SetGlyph false p))).

(** The first statement of [rawWritePixel]:
    [*pixel_index = (GetI() << (2 * bits_per_char)) + GetJ();] with
    [bits_per_char = sizeof(char) * 8], in [unsigned int] arithmetic and
    converted to the [int] it is stored in. *)
Definition bits_per_char : Z := 1 * 8.

Definition pixel_index (p : t) : Z :=
  to_int ((Z.shiftl (GetI p) (2 * bits_per_char) mod 2 ^ 32 + GetJ p)
          mod 2 ^ 32).

(** [VisSettings::mode]: the two modes the class names and one for the
    others. *)
Inductive Mode : Set := ISOSURFACES | ISOSURFACESANDGLYPHS | OTHERMODE.

Record VisSettings : Set := mkVisSettings { mode : Mode }.

Section Merge.
(** The ray data of a pixel and its two operations are defined by the
    template argument of the class. *)
Variable RayDataType : Type.
Variable ContainsRayData : RayDataType -> bool.
Variable RayMergeIn : RayDataType -> RayDataType -> VisSettings -> RayDataType.

(** The members of the class: the two words, the ray data and the
    streakline data. *)
Record pixel : Type := mkPixel {
  words : t;
  mRayData : RayDataType;
  particle_vel : R;
  particle_z : R;
  mParticleInletId : Z
}.

Definition MergeRayTracingData (this iOtherPixel : pixel)
    (iVisSettings : VisSettings) : pixel :=
  if ContainsRayData (mRayData iOtherPixel) then
    if ContainsRayData (mRayData this) then
      mkPixel (words this)
              (RayMergeIn (mRayData this) (mRayData iOtherPixel) iVisSettings)
              (particle_vel this) (particle_z this) (mParticleInletId this)
    else
      mkPixel (words this) (mRayData iOtherPixel)
              (particle_vel this) (particle_z this) (mParticleInletId this)
  else this.

(** [MergeIn], with streaklines compiled in ([NO_STREAKLINES] not
    defined). *)
Definition MergeIn (this iOtherPixel : pixel) (iVisSettings : VisSettings)
  : pixel :=
  let this := MergeRayTracingData this iOtherPixel iVisSettings in
  match mode iVisSettings with
  | ISOSURFACESANDGLYPHS =>
      if IsGlyph (words iOtherPixel) then
        mkPixel (SetGlyph true (words this)) (mRayData this)
                (particle_vel this) (particle_z this) (mParticleInletId this)
      else this
  | _ =>
      if IsStreakline (words iOtherPixel) then
        if negb (IsStreakline (words this)) then
          mkPixel (SetStreakline true (words this)) (mRayData this)
                  (particle_vel iOtherPixel) (particle_z iOtherPixel)
                  (mParticleInletId iOtherPixel)
        else if Rlt_dec (particle_z iOtherPixel) (particle_z this) then
          mkPixel (words this) (mRayData this)
                  (particle_vel iOtherPixel) (particle_z iOtherPixel)
                  (mParticleInletId iOtherPixel)
        else this
      else this
  end.

(** The streakline data of a pixel, taken together. *)
Definition streak_data (p : pixel) : R * R * Z :=
  (particle_vel p, particle_z p, mParticleInletId p).
End Merge.

(** [iVisSettings.mode == VisSettings::ISOSURFACESANDGLYPHS] *)
Definition with_glyphs (s : VisSettings) : bool :=
  match mode s with ISOSURFACESANDGLYPHS => true | _ => false end.

(** A word of 32 bits, and a call whose argument is one. *)
Definition word32 (a : Z) : Prop := 0 <= a < 2 ^ 32.

Definition argument32 (c : call) : Prop :=
  match c with
  | CallSetI i | CallSetJ i => word32 i
  | _ => True
  end.

(** Pixels without ray data for the statements about merging: a
    streakline pixel with a particle at depth [z] from inlet [inlet], and
    a glyph pixel. *)
Definition streakline_pixel (z : R) (inlet : Z) : pixel unit :=
  mkPixel unit (ColPixel_streakline 3 4 (mk 0 0)) tt 1%R z inlet.

Definition glyph_pixel : pixel unit :=
  mkPixel unit (ColPixel_glyph 3 4 true (mk 0 0)) tt 0%R 0%R 0.
End ColPixelOps.

(* ================================================================== *)
(** * lb/collisions/ImplGuoZhengShi.cc: the slots a site assigns *)
(* ================================================================== *)

Module Slots.
Import D3Q15 ImplGuoZhengShi.

(** The indices of [FNew] the two inner loops assign for a site: the
    slots its fifteen directions stream to and, for each direction with
    a wall, its own slot in the inverse direction. *)
Definition slots (lat : LocalLatticeData) (lIndex : nat) : list nat :=
  map (GetStreamedIndex lat lIndex) (seq 0 NUMVECTORS)
  ++ flat_map
       (fun l =>
          if HasBoundary lat lIndex l
          then [(lIndex * NUMVECTORS + nth l INVERSEDIRECTIONS 0)%nat]
          else [])
       (seq 1 (NUMVECTORS - 1)).
End Slots.

(* ================================================================== *)
(** * colloids/BoundaryConditions.cc: the registration of conditions *)
(* ================================================================== *)

Module BoundaryConditionsInit.
Import BoundaryConditions.
Import String.
Local Open Scope string_scope.

Section Init.
Variable Particle : Type.

(** What a factory reads from the element the cursor is at. *)
Variable Element : Type.

(** [LubricationBoundaryConditionFactory::Create] and
    [DeletionBoundaryConditionFactory::Create]. *)
Variable CreateLubrication : Element -> BoundaryCondition Particle.
Variable CreateDeletion : Element -> BoundaryCondition Particle.

(** The document as the function walks it.  [XmlAbstractionLayer] is
    declared outside the sources at hand; the function uses it as a
    cursor: it descends to [colloids/boundaryConditions], and for a
    class name visits, with [MoveToChild] and [NextSibling], the
    children of that name in the order of the document, reading of each
    the attribute [appliesTo] (the empty string when it is missing) and
    handing the element to the factory.  A document is [None] when the
    descent fails, and otherwise gives the children of each name. *)
Definition Document : Type := option (string -> list (string * Element)).

(** [mapBCGenerators]: a [std::map] is iterated in the order of its
    keys, so the entry of [DeletionBC] comes first. *)
Definition mapBCGenerators
  : list (string * (Element -> BoundaryCondition Particle)) :=
  [("DeletionBC", CreateDeletion); ("LubricationBC", CreateLubrication)].

(** Lines 57-62: the list a new condition is appended to. *)
Definition register (appliesTo : string) (nextBC : BoundaryCondition Particle)
    (reg : Registry Particle) : Registry Particle :=
  if appliesTo =? "wall" then
    mkRegistry Particle (boundaryConditionsWall Particle reg ++ [nextBC])
               (boundaryConditionsInlet Particle reg)
               (boundaryConditionsOutlet Particle reg)
               (latticeData Particle reg)
  else if appliesTo =? "inlet" then
    mkRegistry Particle (boundaryConditionsWall Particle reg)
               (boundaryConditionsInlet Particle reg ++ [nextBC])
               (boundaryConditionsOutlet Particle reg)
               (latticeData Particle reg)
  else if appliesTo =? "outlet" then
    mkRegistry Particle (boundaryConditionsWall Particle reg)
               (boundaryConditionsInlet Particle reg)
               (boundaryConditionsOutlet Particle reg ++ [nextBC])
               (latticeData Particle reg)
  else reg.

(** The loop over the children of one class (lines 49-66). *)
Definition register_class (children : string -> list (string * Element))
    (reg : Registry Particle)
    (generator : string * (Element -> BoundaryCondition Particle))
  : Registry Particle :=
  let (boundaryConditionClass, createFunction) := generator in
  fold_left
    (fun reg (child : string * Element) =>
       let (appliesTo, element) := child in
       register appliesTo (createFunction element) reg)
    (children boundaryConditionClass) reg.

(** The static members before the call are [reg]. *)
Definition InitBoundaryConditions (latticeData : LatticeData)
    (xml : Document) (reg : Registry Particle) : Registry Particle :=
  let reg :=
    mkRegistry Particle (boundaryConditionsWall Particle reg)
               (boundaryConditionsInlet Particle reg)
               (boundaryConditionsOutlet Particle reg)
               latticeData in
  match xml with
  | None => reg
  | Some children => fold_left (register_class children) mapBCGenerators reg
  end.

(** The elements of a list of children that apply to [target]. *)
Definition applying_to (target : string) (children : list (string * Element))
  : list Element :=
  map snd (filter (fun child => fst child =? target) children).
End Init.
End BoundaryConditionsInit.

(* ================================================================== *)
(** * lb/io.cc: the plans of the two snapshot writers *)
(* ================================================================== *)

Module Snapshot.
Local Open Scope Z_scope.

(** [ceil] of [math.h], with the integer it denotes as result. *)
Definition ceil (r : R) : Z := - Int_part (- r).

(** ** [WriteConfig]: the gather plan (lines 544-563) *)

(** The loop over the processors that finds [fluid_sites_max]. *)
Definition fluid_sites_max (FluidSitesOnEachProcessor : nat -> Z)
    (GetProcessorCount : nat) : Z :=
  fold_left (fun fluid_sites_max n =>
               Z.max fluid_sites_max (FluidSitesOnEachProcessor n))
            (seq 0 GetProcessorCount) 0.

Definition buffer_size (fluid_sites_max GetProcessorCount : Z) : Z :=
  Z.min 1000000 (fluid_sites_max * GetProcessorCount).

Definition communication_period (fluid_sites_max GetProcessorCount : Z) : Z :=
  ceil (IZR (buffer_size fluid_sites_max GetProcessorCount)
        / IZR GetProcessorCount).

Definition communication_iters (fluid_sites_max GetProcessorCount : Z) : Z :=
  Z.max 1 (ceil (IZR fluid_sites_max
                 / IZR (communication_period fluid_sites_max
                                             GetProcessorCount))).

(** ** [WriteConfig]: the counters of the gather rounds *)

(** The counters [comPeriodDelta] and [iters], and the number of rounds
    of the two [MPI_Gather] calls performed so far. *)
Record counters : Set := mkCounters {
  comPeriodDelta : Z;
  iters : Z;
  rounds : Z
}.

(** The counting at the end of the body of the innermost loop (lines
    693-697), reached once for every site that is stored in the local
    buffer: [if (++comPeriodDelta != communication_period) continue;],
    and otherwise the buffer is full and is gathered. *)
Definition site_stored (communication_period : Z) (c : counters) : counters :=
  let comPeriodDelta := comPeriodDelta c + 1 in
  if negb (comPeriodDelta =? communication_period)
  then mkCounters comPeriodDelta (iters c) (rounds c)
  else mkCounters 0 (iters c + 1) (rounds c + 1).

(** The loops over the blocks and their sites, for a process that
    stores [sites] sites, from the initial [comPeriodDelta = 0] and
    [iters = 0]. *)
Definition scan (communication_period : Z) (sites : nat) : counters :=
  Nat.iter sites (site_stored communication_period) (mkCounters 0 0 0).

(** The loop [for (; iters <= communication_iters; iters++)] of lines
    749-783, each round of which gathers once; [fuel] bounds the number
    of rounds. *)
Fixpoint gather_rounds (fuel : nat) (communication_iters : Z) (c : counters)
  : counters :=
  match fuel with
  | O => c
  | S fuel =>
      if iters c <=? communication_iters
      then gather_rounds fuel communication_iters
                         (mkCounters (comPeriodDelta c) (iters c + 1)
                                     (rounds c + 1))
      else c
  end.

(** Lines 744-786: [if (iters != communication_iters)], one more
    increment and the loop above, which has left at most
    [communication_iters + 1 - iters] rounds to go. *)
Definition flush (communication_iters : Z) (c : counters) : counters :=
  if negb (iters c =? communication_iters) then
    let c := mkCounters (comPeriodDelta c) (iters c + 1) (rounds c) in
    gather_rounds (Z.to_nat (communication_iters + 1 - iters c))
                  communication_iters c
  else c.

(** ** [WriteConfigParallel]: the place of a process in the file *)

(** The value an [int] takes when it is assigned the integer [z]: the
    representative of [z] modulo [2^32] in [-2^31, 2^31). *)
Definition wrap_int (z : Z) : Z := (z + 2 ^ 31) mod 2 ^ 32 - 2 ^ 31.

Definition lPreambleLength : Z := 4 + 8 + (3 * 4) + (3 * 4) + (3 * 4) + 4.

Definition lOneFluidSiteLength : Z := (3 * 4) + (5 * 4).

(** The loop of lines 883-889, on the [int] variable
    [lLocalSitesInitialOffset]; the product and the sum are [int]
    operations. *)
Definition lLocalSitesInitialOffset (FluidSitesOnEachProcessor : nat -> Z)
    (GetLocalRank : nat) : Z :=
  fold_left (fun lLocalSitesInitialOffset ii =>
               wrap_int (lLocalSitesInitialOffset
                         + wrap_int (lOneFluidSiteLength
                                     * FluidSitesOnEachProcessor ii)))
            (seq 0 GetLocalRank) lPreambleLength.

(** Lines 894-895, an [int] as well. *)
Definition lLocalWriteLength (FluidSitesOnEachProcessor : nat -> Z)
    (GetLocalRank : nat) : Z :=
  wrap_int (lOneFluidSiteLength * FluidSitesOnEachProcessor GetLocalRank).

(** The number of fluid sites of the processors below [rank]. *)
Definition sites_below (FluidSitesOnEachProcessor : nat -> Z) (rank : nat)
  : Z :=
  fold_right Z.add 0 (map FluidSitesOnEachProcessor (seq 0 rank)).

(** The length in bytes of a file that holds the preamble and the sites
    of [GetProcessorCount] processors. *)
Definition file_length (FluidSitesOnEachProcessor : nat -> Z)
    (GetProcessorCount : nat) : Z :=
  lPreambleLength
  + lOneFluidSiteLength * sites_below FluidSitesOnEachProcessor GetProcessorCount.
End Snapshot.

(* ================================================================== *)
(** * lb/io.cc: the broadcast of the inlet and outlet parameters *)
(* ================================================================== *)

Module ReadParameters.
Import ImplGuoZhengShi.
Local Open Scope R_scope.

(** The conversion [(int) d] of a [double]. *)
Definition int_of (d : R) : Z :=
  if Rle_dec 0 d then Int_part d else (- Int_part (- d))%Z.

(** The members of [LBM] the function exchanges. *)
Record lets : Type := mkLets {
  inlets : Z;
  outlets : Z;
  is_inlet_normal_available : Z;
  inlet_density_avg : nat -> R;
  inlet_density_amp : nat -> R;
  inlet_density_phs : nat -> R;
  outlet_density_avg : nat -> R;
  outlet_density_amp : nat -> R;
  outlet_density_phs : nat -> R;
  inlet_normal : nat -> R
}.

(** [MPI_Bcast(buffer, count, ...)] on a process that is not the root:
    the first [count] entries of its buffer become those of the root. *)
Definition MPI_Bcast (count : nat) (root own : nat -> R) : nat -> R :=
  fun i => if (i <? count)%nat then root i else own i.

(** Lines 361-363, on the process that reads the configuration. *)
Definition announce (io : lets) (par_to_send : nat -> R) : nat -> R :=
  let par_to_send := store par_to_send 0 (0.1 + IZR (inlets io)) in
  let par_to_send := store par_to_send 1 (0.1 + IZR (outlets io)) in
  store par_to_send 2 (0.1 + IZR (is_inlet_normal_available io)).

(** Lines 370-372, on another process. *)
Definition receive_counts (par_to_send : nat -> R) (me : lets) : lets :=
  mkLets (int_of (par_to_send 0%nat)) (int_of (par_to_send 1%nat))
         (int_of (par_to_send 2%nat))
         (inlet_density_avg me) (inlet_density_amp me) (inlet_density_phs me)
         (outlet_density_avg me) (outlet_density_amp me)
         (outlet_density_phs me) (inlet_normal me).

(** One round of a loop that stores three values at
    [base + 3 * n + 0 .. 2]. *)
Definition put3 (base : nat) (a b c : nat -> R) (par_to_send : nat -> R)
    (n : nat) : nat -> R :=
  let par_to_send := store par_to_send (base + 3 * n + 0) (a n) in
  let par_to_send := store par_to_send (base + 3 * n + 1) (b n) in
  store par_to_send (base + 3 * n + 2) (c n).

(** Lines 384-404, on the process that reads the configuration. *)
Definition pack (io : lets) (par_to_send : nat -> R) : nat -> R :=
  let inlets_ := Z.to_nat (inlets io) in
  let outlets_ := Z.to_nat (outlets io) in
  let par_to_send :=
    fold_left (put3 0 (inlet_density_avg io) (inlet_density_amp io)
                    (inlet_density_phs io))
              (seq 0 inlets_) par_to_send in
  let par_to_send :=
    fold_left (put3 (3 * inlets_) (outlet_density_avg io)
                    (outlet_density_amp io) (outlet_density_phs io))
              (seq 0 outlets_) par_to_send in
  if (is_inlet_normal_available io =? 0)%Z then par_to_send
  else
    fold_left (put3 (3 * (inlets_ + outlets_))
                    (fun n => inlet_normal io (3 * n + 0))
                    (fun n => inlet_normal io (3 * n + 1))
                    (fun n => inlet_normal io (3 * n + 2)))
              (seq 0 inlets_) par_to_send.

(** The rounds of the three loops of lines 411-431, on another
    process. *)
Definition take_inlet (par_to_send : nat -> R) (me : lets) (n : nat) : lets :=
  mkLets (inlets me) (outlets me) (is_inlet_normal_available me)
         (store (inlet_density_avg me) n (par_to_send (3 * n + 0)%nat))
         (store (inlet_density_amp me) n (par_to_send (3 * n + 1)%nat))
         (store (inlet_density_phs me) n (par_to_send (3 * n + 2)%nat))
         (outlet_density_avg me) (outlet_density_amp me)
         (outlet_density_phs me) (inlet_normal me).

Definition take_outlet (par_to_send : nat -> R) (me : lets) (n : nat) : lets :=
  let inlets_ := Z.to_nat (inlets me) in
  mkLets (inlets me) (outlets me) (is_inlet_normal_available me)
         (inlet_density_avg me) (inlet_density_amp me) (inlet_density_phs me)
         (store (outlet_density_avg me) n
                (par_to_send (3 * inlets_ + 3 * n + 0)%nat))
         (store (outlet_density_amp me) n
                (par_to_send (3 * inlets_ + 3 * n + 1)%nat))
         (store (outlet_density_phs me) n
                (par_to_send (3 * inlets_ + 3 * n + 2)%nat))
         (inlet_normal me).

Definition take_normal (par_to_send : nat -> R) (me : lets) (n : nat) : lets :=
  let base := (3 * (Z.to_nat (inlets me) + Z.to_nat (outlets me)))%nat in
  let normal := inlet_normal me in
  let normal := store normal (3 * n + 0) (par_to_send (base + 3 * n + 0)%nat) in
  let normal := store normal (3 * n + 1) (par_to_send (base + 3 * n + 1)%nat) in
  let normal := store normal (3 * n + 2) (par_to_send (base + 3 * n + 2)%nat) in
  mkLets (inlets me) (outlets me) (is_inlet_normal_available me)
         (inlet_density_avg me) (inlet_density_amp me) (inlet_density_phs me)
         (outlet_density_avg me) (outlet_density_amp me)
         (outlet_density_phs me) normal.

Definition unpack (par_to_send : nat -> R) (me : lets) : lets :=
  let me := fold_left (take_inlet par_to_send)
                      (seq 0 (Z.to_nat (inlets me))) me in
  let me := fold_left (take_outlet par_to_send)
                      (seq 0 (Z.to_nat (outlets me))) me in
  if (is_inlet_normal_available me =? 0)%Z then me
  else fold_left (take_normal par_to_send) (seq 0 (Z.to_nat (inlets me))) me.

(** Lines 359-431 as a process other than the one that reads the
    configuration goes through them: [io] are the members of the
    reading process after it has filled them from the configuration,
    [par_io] and [par_own] the buffers of the two processes and [me] the
    members of the process itself at the start. *)
Definition exchange (io : lets) (par_io par_own : nat -> R) (me : lets)
  : lets :=
  let par_io := announce io par_io in
  let par_own := MPI_Bcast 3 par_io par_own in
  let me := receive_counts par_own me in
  let par_io := pack io par_io in
  let par_own :=
    MPI_Bcast (Z.to_nat (3 * (inlets me + outlets me + inlets me)))
              par_io par_own in
  unpack par_own me.

(** The members of a reading process with two inlets and one outlet,
    and those of a process that has read nothing yet. *)
Definition two_inlets : lets :=
  mkLets 2 1 1 (fun n => 1 + INR n) (fun n => 2 + INR n) (fun n => 3 + INR n)
         (fun n => 4 + INR n) (fun n => 5 + INR n) (fun n => 6 + INR n)
         (fun i => 7 + INR i).

Definition nothing_read : lets :=
  mkLets 0 0 0 (fun _ => 0) (fun _ => 0) (fun _ => 0)
         (fun _ => 0) (fun _ => 0) (fun _ => 0) (fun _ => 0).
End ReadParameters.

(* ================================================================== *)
(** * Properties of the pixel accessors *)
(* ================================================================== *)

Module ColPixelFacts.
Import ColPixel.
Local Open Scope Z_scope.

Lemma unot_flag : unot mMostSignificantBit = Z.ones 31.
Proof. reflexivity. Qed.

Lemma flag_outside_ones : Z.land mMostSignificantBit (Z.ones 31) = 0.
Proof. reflexivity. Qed.

Lemma coordinate_low (i : Z) : 0 <= i < 2 ^ 31 -> Z.land i (Z.ones 31) = i.
Proof.
  intros Hi. rewrite Z.land_ones by lia. apply Z.mod_small. exact Hi.
Qed.

Lemma coordinate_no_flag (i : Z) :
  0 <= i < 2 ^ 31 -> Z.land i mMostSignificantBit = 0.
Proof.
  intros Hi. rewrite <- (coordinate_low i Hi), <- Z.land_assoc.
  rewrite (Z.land_comm (Z.ones 31)), flag_outside_ones. apply Z.land_0_r.
Qed.

Lemma flag_part_low (m : Z) :
  Z.land (Z.land m mMostSignificantBit) (Z.ones 31) = 0.
Proof.
  rewrite <- Z.land_assoc, flag_outside_ones. apply Z.land_0_r.
Qed.

Lemma low_part_flag (m : Z) :
  Z.land (Z.land m (Z.ones 31)) mMostSignificantBit = 0.
Proof.
  rewrite <- Z.land_assoc, (Z.land_comm (Z.ones 31)), flag_outside_ones.
  apply Z.land_0_r.
Qed.

Lemma low_part_idem (m : Z) :
  Z.land (Z.land m (Z.ones 31)) (Z.ones 31) = Z.land m (Z.ones 31).
Proof. rewrite <- Z.land_assoc, Z.land_diag. reflexivity. Qed.

Lemma flag_part_idem (m : Z) :
  Z.land (Z.land m mMostSignificantBit) mMostSignificantBit
  = Z.land m mMostSignificantBit.
Proof. rewrite <- Z.land_assoc, Z.land_diag. reflexivity. Qed.

(** Writing a coordinate under a kept flag bit. *)
Lemma put_coordinate_low (i m : Z) :
  0 <= i < 2 ^ 31 ->
  Z.land (Z.lor i (Z.land m mMostSignificantBit)) (Z.ones 31) = i.
Proof.
  intros Hi.
  rewrite Z.land_lor_distr_l, flag_part_low, Z.lor_0_r.
  apply coordinate_low. exact Hi.
Qed.

Lemma put_coordinate_flag (i m : Z) :
  0 <= i < 2 ^ 31 ->
  Z.land (Z.lor i (Z.land m mMostSignificantBit)) mMostSignificantBit
  = Z.land m mMostSignificantBit.
Proof.
  intros Hi.
  rewrite Z.land_lor_distr_l, flag_part_idem, coordinate_no_flag by exact Hi.
  apply Z.lor_0_l.
Qed.

Lemma raise_flag_low (m : Z) :
  Z.land (Z.lor m mMostSignificantBit) (Z.ones 31) = Z.land m (Z.ones 31).
Proof.
  rewrite Z.land_lor_distr_l, flag_outside_ones. apply Z.lor_0_r.
Qed.

Lemma raise_flag_flag (m : Z) :
  Z.land (Z.lor m mMostSignificantBit) mMostSignificantBit
  = mMostSignificantBit.
Proof.
  rewrite Z.land_lor_distr_l, Z.land_diag.
  apply Z.bits_inj'. intros n Hn.
  rewrite Z.lor_spec, Z.land_spec.
  destruct (Z.testbit m n), (Z.testbit mMostSignificantBit n); reflexivity.
Qed.

Lemma perform_observe (p : t) (c : call) :
  coordinate c -> observe (perform p c) = remember (observe p) c.
Proof.
  destruct p as [i j].
  destruct c as [v | v | [|] | [|]]; intros Hc;
    unfold observe, perform, remember, SetI, SetJ, SetGlyph, SetStreakline,
           GetI, GetJ, IsGlyph, IsStreakline;
    cbn [mI mJ vI vJ vGlyph vStreakline coordinate] in *;
    rewrite ?unot_flag, ?put_coordinate_low, ?put_coordinate_flag,
            ?raise_flag_low, ?raise_flag_flag, ?low_part_idem, ?low_part_flag
      by exact Hc;
    reflexivity.
Qed.

(** C9.  On a pixel in any state, after any sequence of calls of
    [SetI], [SetJ], [SetGlyph] and [SetStreakline] whose coordinates are
    below [2^31], the four getters report what four independent cells
    would hold: [GetI] and [GetJ] the argument of the last [SetI] and
    [SetJ], [IsGlyph] and [IsStreakline] the flag last set, and each is
    left alone by the calls of the other three setters. *)
Theorem getters_report_last_set (cs : list call) (p : t) :
  Forall coordinate cs ->
  observe (perform_all cs p) = fold_left remember cs (observe p).
Proof.
  unfold perform_all. revert p.
  induction cs as [| c cs IH]; intros p Hcs.
  - reflexivity.
  - inversion Hcs as [| c' cs' Hc Hrest]; subst.
    cbn [fold_left]. rewrite IH by exact Hrest.
    rewrite perform_observe by exact Hc. reflexivity.
Qed.

Lemma getters_report_last_set_witness :
  observe (perform_all [CallSetGlyph true; CallSetI 640; CallSetStreakline true;
                        CallSetJ 480; CallSetGlyph false; CallSetI 17]
                       (mk 4294967295 123))
  = mkview 17 480 false true.
Proof.
  rewrite getters_report_last_set.
  - reflexivity.
  - repeat constructor; cbn; lia.
Defined.
End ColPixelFacts.

(* ================================================================== *)
(** * Properties of the lattice and of the collision operator *)
(* ================================================================== *)

Module D3Q15Facts.
Import D3Q15.
Local Open Scope R_scope.

Lemma CalculateFeq_length (density v_x v_y v_z : R) :
  length (CalculateFeq density v_x v_y v_z) = NUMVECTORS.
Proof. unfold CalculateFeq. rewrite length_map, length_seq. reflexivity. Qed.

Lemma CalculateFeq_nth (density v_x v_y v_z : R) (i : nat) :
  (i < NUMVECTORS)%nat ->
  nth i (CalculateFeq density v_x v_y v_z) 0 = feq_i density v_x v_y v_z i.
Proof.
  intros Hi. unfold CalculateFeq.
  rewrite (nth_indep _ 0 (feq_i density v_x v_y v_z 0%nat))
    by (rewrite length_map, length_seq; exact Hi).
  rewrite map_nth, seq_nth by exact Hi. reflexivity.
Qed.

(** The equilibrium carries the density it is computed from. *)
Lemma CalculateFeq_sum (density v_x v_y v_z : R) :
  Rsum (CalculateFeq density v_x v_y v_z) = density.
Proof.
  unfold CalculateFeq, feq_i.
  cbn [NUMVECTORS seq map Rsum fold_right nth CX CY CZ WEIGHTS].
  field.
Qed.

(** At rest the equilibrium is the density spread by the weights. *)
Lemma feq_i_rest (density : R) (i : nat) :
  feq_i density 0 0 0 i = nth i WEIGHTS 0 * density.
Proof. unfold feq_i. ring. Qed.

Lemma inverse_bound (d : nat) :
  (d < NUMVECTORS)%nat -> (nth d INVERSEDIRECTIONS 0 < NUMVECTORS)%nat.
Proof.
  unfold NUMVECTORS. intros Hd.
  do 15 (destruct d as [| d]; [cbn; lia |]). lia.
Qed.

Lemma inverse_involutive (d : nat) :
  (d < NUMVECTORS)%nat ->
  nth (nth d INVERSEDIRECTIONS 0%nat) INVERSEDIRECTIONS 0%nat = d.
Proof.
  unfold NUMVECTORS. intros Hd.
  do 15 (destruct d as [| d]; [reflexivity |]). lia.
Qed.

Lemma inverse_injective (d d' : nat) :
  (d < NUMVECTORS)%nat -> (d' < NUMVECTORS)%nat ->
  nth d INVERSEDIRECTIONS 0%nat = nth d' INVERSEDIRECTIONS 0%nat -> d = d'.
Proof.
  intros Hd Hd' H.
  rewrite <- (inverse_involutive d Hd), <- (inverse_involutive d' Hd'), H.
  reflexivity.
Qed.
End D3Q15Facts.

Module ImplGuoZhengShiFacts.
Import D3Q15 D3Q15Facts ImplGuoZhengShi.
Local Open Scope R_scope.

(** ** Arrays and sequences of assignments *)

Lemma store_same (m : nat -> R) (i : nat) (v : R) : store m i v i = v.
Proof. unfold store. rewrite Nat.eqb_refl. reflexivity. Qed.

Lemma store_other (m : nat -> R) (i j : nat) (v : R) :
  j <> i -> store m i v j = m j.
Proof.
  intros H. unfold store. apply Nat.eqb_neq in H. rewrite H. reflexivity.
Qed.

Lemma store_all_app (ws ws' : list (nat * R)) (m : nat -> R) :
  store_all (ws ++ ws') m = store_all ws' (store_all ws m).
Proof. unfold store_all. apply fold_left_app. Qed.

Lemma store_all_untouched (ws : list (nat * R)) (m : nat -> R) (k : nat) :
  ~ In k (map fst ws) -> store_all ws m k = m k.
Proof.
  revert m. induction ws as [| [i v] ws IH]; intros m Hk.
  - reflexivity.
  - cbn [store_all fold_left fst snd]. cbn [map fst In] in Hk.
    change (store_all ws (store m i v) k = m k).
    rewrite IH by tauto. apply store_other. intros ->. tauto.
Qed.

(** The last assignment to a slot decides its content. *)
Lemma store_all_last (ws ws' : list (nat * R)) (m : nat -> R) (k : nat) (v : R) :
  ~ In k (map fst ws') -> store_all (ws ++ (k, v) :: ws') m k = v.
Proof.
  intros Hk. rewrite store_all_app.
  change (store_all ws' (store (store_all ws m) k v) k = v).
  rewrite store_all_untouched by exact Hk. apply store_same.
Qed.

Lemma store_all_once (ws : list (nat * R)) (m : nat -> R) (k : nat) (v : R) :
  NoDup (map fst ws) -> In (k, v) ws -> store_all ws m k = v.
Proof.
  intros Hnd Hin. apply in_split in Hin. destruct Hin as [ws1 [ws2 ->]].
  apply store_all_last.
  rewrite map_app in Hnd. cbn [map fst] in Hnd.
  apply NoDup_remove_2 in Hnd. intros H. apply Hnd, in_or_app. tauto.
Qed.

Lemma window_length (m : nat -> R) (base : nat) :
  length (window m base) = NUMVECTORS.
Proof. unfold window. rewrite length_map, length_seq. reflexivity. Qed.

Lemma window_nth (m : nat -> R) (base ii : nat) :
  (ii < NUMVECTORS)%nat -> nth ii (window m base) 0 = m (base + ii)%nat.
Proof.
  intros Hi. unfold window.
  rewrite (nth_indep _ 0 (m (base + 0)%nat))
    by (rewrite length_map, length_seq; exact Hi).
  rewrite (map_nth (fun ii => m (base + ii)%nat)), seq_nth by exact Hi.
  reflexivity.
Qed.

(** ** The two inner loops as sequences of assignments *)

Lemma non_equilibrium_nth (lat : LocalLatticeData) (lIndex d : nat) :
  (d < NUMVECTORS)%nat ->
  non_equilibrium lat lIndex d
  = nth d (distribution lat lIndex) 0 - nth d (equilibrium_at lat lIndex) 0.
Proof.
  intros Hd. unfold non_equilibrium, distribution.
  rewrite window_nth by exact Hd. reflexivity.
Qed.

Lemma stream_loop (iLbmParams : LbmParameters) (lat : LocalLatticeData)
    (lIndex : nat) (ds : list nat) (m f_neq : nat -> R) :
  Forall (fun d => (d < NUMVECTORS)%nat) ds ->
  exists f_neq',
    fold_left (collide_stream iLbmParams lIndex (distribution lat lIndex)
                              (equilibrium_at lat lIndex))
              ds (with_FNew lat m, f_neq)
    = (with_FNew lat
         (store_all
            (map (fun d => (GetStreamedIndex lat lIndex d,
                            relaxed iLbmParams lat lIndex d)) ds) m),
       f_neq')
    /\ (forall d, In d ds -> f_neq' d = non_equilibrium lat lIndex d)
    /\ (forall d, ~ In d ds -> f_neq' d = f_neq d).
Proof.
  revert m f_neq. induction ds as [| d ds IH]; intros m f_neq Hds.
  - exists f_neq. cbn. tauto.
  - inversion Hds as [| d' ds' Hd Hrest]; subst.
    cbn [fold_left map].
    unfold collide_stream at 2. unfold set_FNew.
    cbn [GetStreamedIndex FNew with_FNew].
    rewrite <- (non_equilibrium_nth lat lIndex d Hd).
    replace (nth d (distribution lat lIndex) 0)
      with (FOld lat (lIndex * NUMVECTORS + d))
      by (unfold distribution; rewrite window_nth by exact Hd; reflexivity).
    fold (relaxed iLbmParams lat lIndex d).
    change (with_FNew (with_FNew lat m) ?x) with (with_FNew lat x).
    destruct (IH (store m (GetStreamedIndex lat lIndex d)
                        (relaxed iLbmParams lat lIndex d))
                 (store f_neq d (non_equilibrium lat lIndex d)) Hrest)
      as [g [Hfold [Hin Hout]]].
    exists g. split; [exact Hfold | split].
    + intros e [<- | He].
      * destruct (in_dec Nat.eq_dec d ds) as [Hd' | Hd'].
        -- apply Hin, Hd'.
        -- rewrite Hout by exact Hd'. apply store_same.
      * apply Hin, He.
    + intros e He. cbn [In] in He. rewrite Hout by tauto.
      apply store_other. intros ->. tauto.
Qed.

Lemma with_FNew_self (lat : LocalLatticeData) : with_FNew lat (FNew lat) = lat.
Proof. destruct lat. reflexivity. Qed.

Lemma moments_at (lat : LocalLatticeData) (lIndex : nat) :
  CalculateDensityVelocityFEq (window (FOld lat) (lIndex * NUMVECTORS))
  = (density_at lat lIndex,
     fst (fst (velocity_at lat lIndex)), snd (fst (velocity_at lat lIndex)),
     snd (velocity_at lat lIndex), equilibrium_at lat lIndex).
Proof. reflexivity. Qed.

(** The moments of a site, from the entries of [FOld] the pointer
    [&FOld[lIndex * NUMVECTORS]] gives access to. *)
Lemma moments_of_entries (lat : LocalLatticeData) (lIndex : nat)
    (density v_x v_y v_z : R) (f_eq : list R) :
  CalculateDensityVelocityFEq
    (map (fun ii => FOld lat (lIndex * NUMVECTORS + ii)%nat) (seq 0 NUMVECTORS))
  = (density, v_x, v_y, v_z, f_eq) ->
  density_at lat lIndex = density
  /\ velocity_at lat lIndex = (v_x, v_y, v_z)
  /\ equilibrium_at lat lIndex = f_eq.
Proof.
  intros H. unfold density_at, velocity_at, equilibrium_at, distribution, window.
  rewrite H. repeat split.
Qed.

Lemma stream_site_writes (iLbmParams : LbmParameters) (lat : LocalLatticeData)
    (lIndex : nat) :
  exists f_neq,
    stream_site iLbmParams lIndex lat
    = (with_FNew lat (store_all (bulk_writes iLbmParams lat lIndex) (FNew lat)),
       f_neq)
    /\ forall d, (d < NUMVECTORS)%nat -> f_neq d = non_equilibrium lat lIndex d.
Proof.
  destruct (stream_loop iLbmParams lat lIndex (seq 0 NUMVECTORS)
                        (FNew lat) (fun _ => 0)) as [g [Hfold [Hin _]]].
  - apply Forall_forall. intros d Hd. apply in_seq in Hd. lia.
  - exists g. split.
    + unfold stream_site. rewrite moments_at.
      rewrite with_FNew_self in Hfold. exact Hfold.
    + intros d Hd. apply Hin, in_seq. lia.
Qed.

Lemma wall_estimate_ext (lat : LocalLatticeData) (lIndex l : nat)
    (v_x v_y v_z : R) (g g' : nat -> R) :
  g (nth l INVERSEDIRECTIONS 0%nat) = g' (nth l INVERSEDIRECTIONS 0%nat) ->
  wall_estimate lat lIndex l v_x v_y v_z g
  = wall_estimate lat lIndex l v_x v_y v_z g'.
Proof. intros H. unfold wall_estimate. rewrite H. reflexivity. Qed.

Lemma velocity_at_eta (lat : LocalLatticeData) (lIndex : nat) :
  velocity_at lat lIndex
  = (fst (fst (velocity_at lat lIndex)), snd (fst (velocity_at lat lIndex)),
     snd (velocity_at lat lIndex)).
Proof. reflexivity. Qed.

(** One round of the second loop, on a lattice whose [FNew] is [m]. *)
Lemma fill_unstreamed_write (iLbmParams : LbmParameters)
    (lat : LocalLatticeData) (lIndex l : nat) (m f_neq : nat -> R) :
  (l < NUMVECTORS)%nat ->
  (forall d, (d < NUMVECTORS)%nat -> f_neq d = non_equilibrium lat lIndex d) ->
  fill_unstreamed iLbmParams lIndex (density_at lat lIndex)
      (fst (fst (velocity_at lat lIndex))) (snd (fst (velocity_at lat lIndex)))
      (snd (velocity_at lat lIndex)) f_neq (with_FNew lat m) l
  = with_FNew lat
      (store_all
         (if HasBoundary lat lIndex l
          then [((lIndex * NUMVECTORS + nth l INVERSEDIRECTIONS 0)%nat,
                 wall_value iLbmParams lat lIndex l)]
          else []) m).
Proof.
  intros Hl Hneq. unfold fill_unstreamed.
  change (HasBoundary (with_FNew lat m) lIndex l) with (HasBoundary lat lIndex l).
  destruct (HasBoundary lat lIndex l); [| reflexivity].
  change (wall_estimate (with_FNew lat m)) with (wall_estimate lat).
  rewrite (wall_estimate_ext lat lIndex l _ _ _ f_neq (non_equilibrium lat lIndex))
    by (apply Hneq, inverse_bound, Hl).
  unfold wall_value. rewrite (velocity_at_eta lat lIndex) at 4.
  destruct (wall_estimate lat lIndex l _ _ _ (non_equilibrium lat lIndex))
    as [[[u0 u1] u2] fNeq].
  reflexivity.
Qed.

Lemma fill_loop (iLbmParams : LbmParameters) (lat : LocalLatticeData)
    (lIndex : nat) (f_neq : nat -> R) (ls : list nat) (m : nat -> R) :
  Forall (fun l => (l < NUMVECTORS)%nat) ls ->
  (forall d, (d < NUMVECTORS)%nat -> f_neq d = non_equilibrium lat lIndex d) ->
  fold_left
    (fill_unstreamed iLbmParams lIndex (density_at lat lIndex)
       (fst (fst (velocity_at lat lIndex))) (snd (fst (velocity_at lat lIndex)))
       (snd (velocity_at lat lIndex)) f_neq)
    ls (with_FNew lat m)
  = with_FNew lat
      (store_all
         (flat_map
            (fun l =>
               if HasBoundary lat lIndex l
               then [((lIndex * NUMVECTORS + nth l INVERSEDIRECTIONS 0)%nat,
                      wall_value iLbmParams lat lIndex l)]
               else []) ls) m).
Proof.
  intros Hls Hneq. revert m.
  induction Hls as [| l ls Hl Hls IH]; intros m.
  - reflexivity.
  - cbn [fold_left flat_map].
    rewrite fill_unstreamed_write by assumption.
    rewrite IH, store_all_app. reflexivity.
Qed.

(** The lattice data a site leaves behind: [FNew] has received the
    assignments of the first loop, then those of the second. *)
Lemma collide_site_writes (iLbmParams : LbmParameters)
    (lat : LocalLatticeData) (lIndex : nat) :
  fst (collide_site iLbmParams lIndex lat)
  = with_FNew lat (store_all (site_writes iLbmParams lat lIndex) (FNew lat)).
Proof.
  unfold collide_site. rewrite moments_at.
  destruct (stream_site_writes iLbmParams lat lIndex) as [g [-> Hg]].
  cbn [fst]. unfold site_writes. rewrite store_all_app.
  apply fill_loop; [| exact Hg].
  apply Forall_forall. intros l Hl. apply in_seq in Hl.
  unfold NUMVECTORS in *. lia.
Qed.

Lemma site_writes_FNew (iLbmParams : LbmParameters) (lat : LocalLatticeData)
    (m : nat -> R) (lIndex : nat) :
  site_writes iLbmParams (with_FNew lat m) lIndex
  = site_writes iLbmParams lat lIndex.
Proof. reflexivity. Qed.

Lemma fold_left_cons_eq {A B : Type} (f : A -> B -> A) (b : B) (l : list B)
    (a : A) :
  fold_left f (b :: l) a = fold_left f l (f a b).
Proof. reflexivity. Qed.

Lemma flat_map_cons_eq {A B : Type} (f : A -> list B) (a : A) (l : list A) :
  flat_map f (a :: l) = f a ++ flat_map f l.
Proof. reflexivity. Qed.

Section Pass.
Variable MinsAndMaxes : Type.
Variable UpdateMinsAndMaxes :
  bool -> R -> R -> R -> nat -> (nat -> R) -> R ->
  MinsAndMaxes -> LocalLatticeData -> LbmParameters -> MinsAndMaxes.

Lemma site_body_lattice (tRayTracing : bool) (iLbmParams : LbmParameters)
    (mm : MinsAndMaxes) (lat : LocalLatticeData) (lIndex : nat) :
  snd (site_body MinsAndMaxes UpdateMinsAndMaxes tRayTracing iLbmParams
                 (mm, lat) lIndex)
  = fst (collide_site iLbmParams lIndex lat).
Proof.
  unfold site_body.
  destruct (collide_site iLbmParams lIndex lat)
    as [lat2 [[[[density v_x] v_y] v_z] f_neq]].
  reflexivity.
Qed.

Lemma site_body_pair (tRayTracing : bool) (iLbmParams : LbmParameters)
    (mm : MinsAndMaxes) (lat : LocalLatticeData) (lIndex : nat) :
  exists mm',
    site_body MinsAndMaxes UpdateMinsAndMaxes tRayTracing iLbmParams
              (mm, lat) lIndex
    = (mm', fst (collide_site iLbmParams lIndex lat)).
Proof.
  rewrite <- site_body_lattice with (tRayTracing := tRayTracing) (mm := mm).
  eexists. apply surjective_pairing.
Qed.

Lemma with_FNew_twice (lat : LocalLatticeData) (m m' : nat -> R) :
  with_FNew (with_FNew lat m) m' = with_FNew lat m'.
Proof. reflexivity. Qed.

Lemma FNew_with_FNew (lat : LocalLatticeData) (m : nat -> R) :
  FNew (with_FNew lat m) = m.
Proof. reflexivity. Qed.

Lemma sites_loop (tRayTracing : bool) (iLbmParams : LbmParameters)
    (lat : LocalLatticeData) (sites : list nat)
    (mm : MinsAndMaxes) (m : nat -> R) :
  snd (fold_left (site_body MinsAndMaxes UpdateMinsAndMaxes tRayTracing
                            iLbmParams)
                 sites (mm, with_FNew lat m))
  = with_FNew lat
      (store_all (flat_map (site_writes iLbmParams lat) sites) m).
Proof.
  revert mm m. induction sites as [| s sites IH]; intros mm m.
  - reflexivity.
  - rewrite (flat_map_cons_eq (site_writes iLbmParams lat) s sites).
    rewrite (fold_left_cons_eq
               (site_body MinsAndMaxes UpdateMinsAndMaxes tRayTracing iLbmParams)).
    destruct (site_body_pair tRayTracing iLbmParams mm (with_FNew lat m) s)
      as [mm' HH].
    rewrite HH, collide_site_writes, site_writes_FNew, with_FNew_twice.
    rewrite FNew_with_FNew, IH, store_all_app. reflexivity.
Qed.

(** The whole pass over the sites, as one sequence of assignments. *)
Lemma DoCollisionsInternal_writes (tRayTracing : bool)
    (iFirstIndex iSiteCount : nat) (iLbmParams : LbmParameters)
    (mm : MinsAndMaxes) (lat : LocalLatticeData) :
  snd (DoCollisionsInternal MinsAndMaxes UpdateMinsAndMaxes tRayTracing
                            iFirstIndex iSiteCount iLbmParams mm lat)
  = with_FNew lat
      (store_all (flat_map (site_writes iLbmParams lat)
                           (seq iFirstIndex iSiteCount))
                 (FNew lat)).
Proof.
  unfold DoCollisionsInternal.
  rewrite <- (with_FNew_self lat) at 1. apply sites_loop.
Qed.
End Pass.
End ImplGuoZhengShiFacts.

Module WallTreatment.
Import D3Q15 D3Q15Facts ImplGuoZhengShi ImplGuoZhengShiFacts.
Local Open Scope R_scope.

Lemma seq_split_at (d n : nat) :
  (d < n)%nat -> seq 0 n = seq 0 d ++ d :: seq (S d) (n - S d).
Proof.
  intros Hd. replace n with (d + S (n - S d))%nat at 1 by lia.
  rewrite seq_app. reflexivity.
Qed.

(** The content of the streamed slot after the first loop of a site. *)
Lemma bulk_slot (iLbmParams : LbmParameters) (lat : LocalLatticeData)
    (lIndex d : nat) :
  (d < NUMVECTORS)%nat ->
  (forall ii, (d < ii < NUMVECTORS)%nat ->
     GetStreamedIndex lat lIndex ii <> GetStreamedIndex lat lIndex d) ->
  FNew (fst (stream_site iLbmParams lIndex lat)) (GetStreamedIndex lat lIndex d)
  = relaxed iLbmParams lat lIndex d.
Proof.
  intros Hd Hlater.
  destruct (stream_site_writes iLbmParams lat lIndex) as [g [-> _]].
  cbn [fst]. rewrite FNew_with_FNew.
  unfold bulk_writes. rewrite (seq_split_at d NUMVECTORS Hd), map_app.
  cbn [map]. apply store_all_last.
  rewrite map_map. cbn [fst]. intros Hin. apply in_map_iff in Hin.
  destruct Hin as [ii [Heq Hii]]. apply in_seq in Hii.
  apply (Hlater ii); [lia | exact Heq].
Qed.

Lemma wall_keys_fresh (iLbmParams : LbmParameters) (lat : LocalLatticeData)
    (lIndex : nat) (ls : list nat) (k : nat) :
  In k (map fst
         (flat_map
            (fun l =>
               if HasBoundary lat lIndex l
               then [((lIndex * NUMVECTORS + nth l INVERSEDIRECTIONS 0)%nat,
                      wall_value iLbmParams lat lIndex l)]
               else []) ls)) ->
  exists l, In l ls /\ HasBoundary lat lIndex l = true
            /\ k = (lIndex * NUMVECTORS + nth l INVERSEDIRECTIONS 0)%nat.
Proof.
  induction ls as [| l ls IH]; cbn [flat_map map In].
  - tauto.
  - rewrite map_app. intros Hin. apply in_app_or in Hin.
    destruct Hin as [Hin | Hin].
    + destruct (HasBoundary lat lIndex l) eqn:Hb; cbn in Hin.
      * destruct Hin as [<- | []]. exists l. auto.
      * tauto.
    + destruct (IH Hin) as [l' [Hl' H]]. exists l'. tauto.
Qed.

Lemma wall_keys_NoDup (iLbmParams : LbmParameters) (lat : LocalLatticeData)
    (lIndex : nat) (ls : list nat) :
  NoDup ls -> Forall (fun l => (l < NUMVECTORS)%nat) ls ->
  NoDup (map fst
           (flat_map
              (fun l =>
                 if HasBoundary lat lIndex l
                 then [((lIndex * NUMVECTORS + nth l INVERSEDIRECTIONS 0)%nat,
                        wall_value iLbmParams lat lIndex l)]
                 else []) ls)).
Proof.
  induction 1 as [| l ls Hl Hnd IH]; intros Hb; cbn [flat_map map].
  - constructor.
  - inversion Hb as [| l' ls' Hlt Hrest]; subst.
    rewrite map_app. destruct (HasBoundary lat lIndex l); cbn [map app fst].
    + constructor; [| apply IH, Hrest].
      intros Hin. apply wall_keys_fresh in Hin.
      destruct Hin as [l' [Hl' [_ Heq]]].
      assert (l = l'); [| subst; tauto].
      apply inverse_injective; [exact Hlt | | lia].
      rewrite Forall_forall in Hrest. apply Hrest, Hl'.
    + apply IH, Hrest.
Qed.

(** The content of the site's own slot opposite to a wall after both
    loops of the site. *)
Lemma wall_slot (iLbmParams : LbmParameters) (lat : LocalLatticeData)
    (lIndex d : nat) :
  (1 <= d < NUMVECTORS)%nat -> HasBoundary lat lIndex d = true ->
  FNew (fst (collide_site iLbmParams lIndex lat))
       (lIndex * NUMVECTORS + nth d INVERSEDIRECTIONS 0)%nat
  = wall_value iLbmParams lat lIndex d.
Proof.
  intros Hd Hb. rewrite collide_site_writes, FNew_with_FNew.
  unfold site_writes. rewrite store_all_app.
  apply store_all_once.
  - apply wall_keys_NoDup.
    + apply seq_NoDup.
    + apply Forall_forall. intros l Hl. apply in_seq in Hl.
      unfold NUMVECTORS in *. lia.
  - unfold wall_writes. apply in_flat_map. exists d. split.
    + apply in_seq. unfold NUMVECTORS in *. lia.
    + rewrite Hb. left. reflexivity.
Qed.

Lemma wall_value_eq (iLbmParams : LbmParameters) (lat : LocalLatticeData)
    (lIndex d : nat) (v_x v_y v_z uWall0 uWall1 uWall2 fNeq : R) :
  velocity_at lat lIndex = (v_x, v_y, v_z) ->
  wall_estimate lat lIndex d v_x v_y v_z (non_equilibrium lat lIndex)
  = ((uWall0, uWall1, uWall2), fNeq) ->
  wall_value iLbmParams lat lIndex d
  = nth (nth d INVERSEDIRECTIONS 0%nat)
        (CalculateFeq (density_at lat lIndex) uWall0 uWall1 uWall2) 0
    + (1 + Omega iLbmParams) * fNeq.
Proof.
  intros Hv He. unfold wall_value. rewrite Hv, He. reflexivity.
Qed.

(** The three cases of lines 74-113. *)
Lemma wall_estimate_near (lat : LocalLatticeData) (lIndex l : nat)
    (v_x v_y v_z : R) (f_neq : nat -> R) :
  0.75 <= GetCutDistance lat lIndex l ->
  wall_estimate lat lIndex l v_x v_y v_z f_neq
  = (((1 - 1 / GetCutDistance lat lIndex l) * v_x,
      (1 - 1 / GetCutDistance lat lIndex l) * v_y,
      (1 - 1 / GetCutDistance lat lIndex l) * v_z),
     f_neq (nth l INVERSEDIRECTIONS 0%nat)).
Proof.
  intros Hd. unfold wall_estimate.
  destruct (Rlt_dec (GetCutDistance lat lIndex l) 0.75) as [Hlt | _].
  - lra.
  - reflexivity.
Qed.

Lemma wall_estimate_zero (lat : LocalLatticeData) (lIndex l : nat)
    (v_x v_y v_z : R) (f_neq : nat -> R) :
  GetCutDistance lat lIndex l < 0.75 ->
  HasBoundary lat lIndex (nth l INVERSEDIRECTIONS 0%nat) = true ->
  wall_estimate lat lIndex l v_x v_y v_z f_neq = ((0, 0, 0), 0).
Proof.
  intros Hd Hb. unfold wall_estimate.
  destruct (Rlt_dec (GetCutDistance lat lIndex l) 0.75) as [_ | Hge].
  - rewrite Hb. reflexivity.
  - contradiction.
Qed.

Lemma wall_estimate_far (lat : LocalLatticeData) (lIndex l : nat)
    (v_x v_y v_z : R) (f_neq : nat -> R) (far_x far_y far_z : R) :
  let delta := GetCutDistance lat lIndex l in
  let away := nth l INVERSEDIRECTIONS 0%nat in
  let far := (GetStreamedIndex lat lIndex away / NUMVECTORS)%nat in
  delta < 0.75 ->
  HasBoundary lat lIndex away = false ->
  velocity_at lat far = (far_x, far_y, far_z) ->
  wall_estimate lat lIndex l v_x v_y v_z f_neq
  = ((delta * ((1 - 1 / delta) * v_x)
      + (1 - delta) * (delta - 1) / (1 + delta) * far_x,
      delta * ((1 - 1 / delta) * v_y)
      + (1 - delta) * (delta - 1) / (1 + delta) * far_y,
      delta * ((1 - 1 / delta) * v_z)
      + (1 - delta) * (delta - 1) / (1 + delta) * far_z),
     delta * f_neq away
     + (1 - delta) * (FOld lat (far * NUMVECTORS + away)
                      - nth away (equilibrium_at lat far) 0)).
Proof.
  intros delta away far Hd Hb Hv. unfold wall_estimate.
  fold delta. fold away.
  destruct (Rlt_dec delta 0.75) as [_ | Hge]; [| contradiction].
  rewrite Hb. cbn [negb]. fold far.
  rewrite (moments_at lat far), Hv. cbn [fst snd].
  f_equal. f_equal; [f_equal |]; unfold Rdiv; ring.
Qed.
End WallTreatment.

Module MassConservation.
Import D3Q15 D3Q15Facts ImplGuoZhengShi ImplGuoZhengShiFacts.
Local Open Scope R_scope.

(** ** Sums *)

Lemma Rsum_app (l l' : list R) : Rsum (l ++ l') = Rsum l + Rsum l'.
Proof.
  induction l as [| a l IH]; cbn [app Rsum fold_right].
  - unfold Rsum. cbn. ring.
  - fold (Rsum (l ++ l')). fold (Rsum l). rewrite IH. ring.
Qed.

Lemma Rsum_Permutation (l l' : list R) : Permutation l l' -> Rsum l = Rsum l'.
Proof.
  induction 1 as [| a l l' _ IH | a b l | l l' l'' _ IH1 _ IH2];
    cbn [Rsum fold_right].
  - reflexivity.
  - fold (Rsum l). fold (Rsum l'). rewrite IH. reflexivity.
  - ring.
  - congruence.
Qed.

Lemma Rsum_relaxation {A : Type} (a b : A -> R) (omega : R) (l : list A) :
  Rsum (map (fun d => a d + omega * (a d - b d)) l)
  = Rsum (map a l) + omega * (Rsum (map a l) - Rsum (map b l)).
Proof.
  induction l as [| d l IH]; cbn [map Rsum fold_right].
  - ring.
  - fold (Rsum (map (fun d => a d + omega * (a d - b d)) l)).
    fold (Rsum (map a l)). fold (Rsum (map b l)). rewrite IH. ring.
Qed.

Lemma seq_shift_map (base len : nat) :
  seq base len = map (Nat.add base) (seq 0 len).
Proof.
  revert base. induction len as [| len IH]; intros base.
  - reflexivity.
  - cbn [seq map]. rewrite Nat.add_0_r. f_equal.
    rewrite (IH (S base)), (IH 1%nat), map_map.
    apply map_ext. intros i. lia.
Qed.

Lemma map_window (m : nat -> R) (base : nat) :
  map m (seq base NUMVECTORS) = window m base.
Proof. rewrite seq_shift_map, map_map. reflexivity. Qed.

(** The mass of a buffer is the sum of the masses of its sites. *)
Lemma total_by_site (m : nat -> R) (n : nat) :
  total m (n * NUMVECTORS)
  = Rsum (map (fun s => Rsum (window m (s * NUMVECTORS))) (seq 0 n)).
Proof.
  unfold total. induction n as [| n IH].
  - reflexivity.
  - replace (S n * NUMVECTORS)%nat with (n * NUMVECTORS + NUMVECTORS)%nat by lia.
    rewrite seq_app, map_app, Rsum_app, IH.
    rewrite seq_S, map_app, Rsum_app. cbn [map Rsum fold_right plus].
    rewrite map_window. ring.
Qed.

(** ** Collision keeps the mass of a site *)

Lemma density_is_mass (lat : LocalLatticeData) (lIndex : nat) :
  density_at lat lIndex = Rsum (distribution lat lIndex).
Proof. reflexivity. Qed.

Lemma equilibrium_mass (lat : LocalLatticeData) (lIndex : nat) :
  Rsum (equilibrium_at lat lIndex) = Rsum (distribution lat lIndex).
Proof.
  unfold equilibrium_at, CalculateDensityVelocityFEq.
  apply CalculateFeq_sum.
Qed.

Lemma equilibrium_entries (lat : LocalLatticeData) (lIndex : nat) :
  map (fun d => nth d (equilibrium_at lat lIndex) 0) (seq 0 NUMVECTORS)
  = equilibrium_at lat lIndex.
Proof.
  unfold equilibrium_at, CalculateDensityVelocityFEq.
  unfold CalculateFeq at 2. apply map_ext_in. intros d Hd.
  apply CalculateFeq_nth. apply in_seq in Hd. lia.
Qed.

Lemma relaxed_mass (iLbmParams : LbmParameters) (lat : LocalLatticeData)
    (lIndex : nat) :
  Rsum (map snd (bulk_writes iLbmParams lat lIndex))
  = Rsum (window (FOld lat) (lIndex * NUMVECTORS)).
Proof.
  unfold bulk_writes. rewrite map_map. cbn [snd]. unfold relaxed, non_equilibrium.
  rewrite (Rsum_relaxation
             (fun d => FOld lat (lIndex * NUMVECTORS + d))
             (fun d => nth d (equilibrium_at lat lIndex) 0)).
  rewrite equilibrium_entries, equilibrium_mass.
  change (map (fun d => FOld lat (lIndex * NUMVECTORS + d)) (seq 0 NUMVECTORS))
    with (distribution lat lIndex).
  unfold distribution. ring.
Qed.

(** ** The assignments of a pass over a closed lattice *)

Section Closed.
Variable iLbmParams : LbmParameters.
Variable lat : LocalLatticeData.
Variable iSiteCount : nat.
Hypothesis closed : closed_bulk lat iSiteCount.

Lemma no_wall_writes (s : nat) :
  (s < iSiteCount)%nat -> wall_writes iLbmParams lat s = [].
Proof.
  intros Hs. unfold wall_writes.
  assert (H : forall ls, Forall (fun l => (l < NUMVECTORS)%nat) ls ->
            flat_map
              (fun l =>
                 if HasBoundary lat s l
                 then [((s * NUMVECTORS + nth l INVERSEDIRECTIONS 0)%nat,
                        wall_value iLbmParams lat s l)]
                 else []) ls = []).
  { induction 1 as [| l ls Hl _ IH]; [reflexivity |].
    cbn [flat_map]. rewrite (no_wall lat iSiteCount closed s l Hs Hl), IH.
    reflexivity. }
  apply H, Forall_forall. intros l Hl. apply in_seq in Hl.
  unfold NUMVECTORS in *. lia.
Qed.

Lemma pass_writes (sites : list nat) :
  Forall (fun s => (s < iSiteCount)%nat) sites ->
  flat_map (site_writes iLbmParams lat) sites
  = flat_map (bulk_writes iLbmParams lat) sites.
Proof.
  induction 1 as [| s sites Hs _ IH]; [reflexivity |].
  cbn [flat_map]. rewrite IH. unfold site_writes.
  rewrite (no_wall_writes s Hs), app_nil_r. reflexivity.
Qed.

Lemma pass_keys_in (sites : list nat) (k : nat) :
  In k (map fst (flat_map (bulk_writes iLbmParams lat) sites)) ->
  exists s d, In s sites /\ (d < NUMVECTORS)%nat
              /\ k = GetStreamedIndex lat s d.
Proof.
  intros Hin. apply in_map_iff in Hin. destruct Hin as [[k' v] [Hk Hin]].
  cbn [fst] in Hk. subst k'.
  apply in_flat_map in Hin. destruct Hin as [s [Hs Hin]].
  unfold bulk_writes in Hin. apply in_map_iff in Hin.
  destruct Hin as [d [Heq Hd]]. apply in_seq in Hd.
  exists s, d. inversion Heq. split; [exact Hs | split; [lia | reflexivity]].
Qed.

Lemma site_keys_NoDup (s : nat) :
  (s < iSiteCount)%nat ->
  NoDup (map fst (bulk_writes iLbmParams lat s)).
Proof.
  intros Hs. unfold bulk_writes. rewrite map_map. cbn [fst].
  apply NoDup_map_NoDup_ForallPairs; [| apply seq_NoDup].
  intros d d' Hd Hd' Heq. apply in_seq in Hd. apply in_seq in Hd'.
  apply (streams_apart lat iSiteCount closed s d s d'); try lia; assumption.
Qed.

Lemma pass_keys_NoDup (sites : list nat) :
  NoDup sites -> Forall (fun s => (s < iSiteCount)%nat) sites ->
  NoDup (map fst (flat_map (bulk_writes iLbmParams lat) sites)).
Proof.
  induction 1 as [| s sites Hs Hnd IH]; intros Hb.
  - constructor.
  - inversion Hb as [| s' sites' Hlt Hrest]; subst.
    cbn [flat_map]. rewrite map_app. apply NoDup_app.
    + apply site_keys_NoDup, Hlt.
    + apply IH, Hrest.
    + intros k Hk Hk'.
      apply pass_keys_in in Hk'. destruct Hk' as [s' [d' [Hs' [Hd' Heq']]]].
      assert (Hk1 : In k (map fst (flat_map (bulk_writes iLbmParams lat) [s])))
        by (cbn [flat_map]; rewrite app_nil_r; exact Hk).
      apply pass_keys_in in Hk1.
      destruct Hk1 as [s0 [d [[<- | []] [Hd Heq]]]].
      rewrite Forall_forall in Hrest.
      destruct (streams_apart lat iSiteCount closed s d s' d') as [E _];
        try assumption; [apply Hrest, Hs' | congruence |].
      subst s'. contradiction.
Qed.

Lemma pass_keys_length (sites : list nat) :
  length (map fst (flat_map (bulk_writes iLbmParams lat) sites))
  = (length sites * NUMVECTORS)%nat.
Proof.
  rewrite length_map. induction sites as [| s sites IH]; [reflexivity |].
  cbn [flat_map]. rewrite length_app, IH. unfold bulk_writes.
  rewrite length_map, length_seq. cbn [length]. lia.
Qed.

(** Every slot of the lattice is assigned exactly once. *)
Lemma pass_keys_Permutation :
  Permutation
    (map fst (flat_map (bulk_writes iLbmParams lat) (seq 0 iSiteCount)))
    (seq 0 (iSiteCount * NUMVECTORS)).
Proof.
  assert (Hb : Forall (fun s => (s < iSiteCount)%nat) (seq 0 iSiteCount)).
  { apply Forall_forall. intros s Hs. apply in_seq in Hs. lia. }
  apply NoDup_Permutation_bis.
  - apply pass_keys_NoDup; [apply seq_NoDup | exact Hb].
  - rewrite pass_keys_length, !length_seq. lia.
  - intros k Hk. apply pass_keys_in in Hk.
    destruct Hk as [s [d [Hs [Hd ->]]]]. apply in_seq in Hs.
    apply in_seq. split; [lia |]. cbn [plus].
    apply (streams_inside lat iSiteCount closed); [lia | exact Hd].
Qed.

Lemma pass_values_mass (sites : list nat) :
  Rsum (map snd (flat_map (bulk_writes iLbmParams lat) sites))
  = Rsum (map (fun s => Rsum (window (FOld lat) (s * NUMVECTORS))) sites).
Proof.
  induction sites as [| s sites IH]; [reflexivity |].
  cbn [flat_map map Rsum fold_right]. rewrite map_app, Rsum_app, IH, relaxed_mass.
  reflexivity.
Qed.

Lemma pass_mass (m : nat -> R) :
  total (store_all (flat_map (bulk_writes iLbmParams lat) (seq 0 iSiteCount)) m)
        (iSiteCount * NUMVECTORS)
  = total (FOld lat) (iSiteCount * NUMVECTORS).
Proof.
  set (ws := flat_map (bulk_writes iLbmParams lat) (seq 0 iSiteCount)).
  unfold total at 1.
  rewrite <- (Rsum_Permutation _ _
                (Permutation_map (store_all ws m) pass_keys_Permutation)).
  fold ws. rewrite map_map.
  rewrite (map_ext_in (fun w => store_all ws m (fst w)) snd).
  - unfold ws. rewrite pass_values_mass, total_by_site. reflexivity.
  - intros [k v] Hin. cbn [fst snd]. apply store_all_once; [| exact Hin].
    apply pass_keys_NoDup; [apply seq_NoDup |].
    apply Forall_forall. intros s Hs. apply in_seq in Hs. lia.
Qed.
End Closed.
End MassConservation.

(* ================================================================== *)
(** * The collision operator: the properties claimed *)
(* ================================================================== *)

Module CollisionClaims.
Import D3Q15 D3Q15Facts ImplGuoZhengShi ImplGuoZhengShiFacts.
Import WallTreatment MassConservation Examples.
Local Open Scope R_scope.

(** Evaluation of a closed term down to its real arithmetic. *)
Ltac evaluate :=
  cbv - [IZR INR Rplus Rmult Rminus Rdiv Rinv Ropp Rlt_dec Rle_dec Rgt_dec].

(** Equality of tuples of closed real expressions. *)
Ltac componentwise :=
  repeat match goal with |- (_, _) = (_, _) => apply f_equal2 end;
  (lra || field).

(** The moments of a closed distribution vector: the density and the
    three first moments are evaluated, the equilibrium follows. *)
Ltac moments_by_evaluation :=
  unfold CalculateDensityVelocityFEq;
  match goal with
  | |- (Rsum ?f, moment CX ?f / _, moment CY ?f / _, moment CZ ?f / _, _)
       = (?density, ?v_x, ?v_y, ?v_z, _) =>
      let Hd := fresh in
      let Hx := fresh in
      let Hy := fresh in
      let Hz := fresh in
      assert (Hd : Rsum f = density) by (evaluate; lra);
      assert (Hx : moment CX f / density = v_x) by (evaluate; field);
      assert (Hy : moment CY f / density = v_y) by (evaluate; field);
      assert (Hz : moment CZ f / density = v_z) by (evaluate; field);
      rewrite Hd, Hx, Hy, Hz; reflexivity
  end.

(** C1.  In the first loop of any site, for every direction [d] (the
    rest direction 0 included), the slot of [FNew] that [d] streams to
    holds [f[d] + Omega * (f[d] - f_eq[d])] when the loop ends, where
    [f[d]] is the entry [FOld[lIndex * NUMVECTORS + d]] of the site and
    [f_eq] the equilibrium computed from the fifteen entries of the
    site; the slot must not be streamed to again by a later direction
    of the same site. *)
Theorem bulk_step_writes_relaxed_value (iLbmParams : LbmParameters)
    (lat : LocalLatticeData) (lIndex d : nat)
    (density v_x v_y v_z : R) (f_eq : list R) :
  (d < NUMVECTORS)%nat ->
  (forall ii, (d < ii < NUMVECTORS)%nat ->
     GetStreamedIndex lat lIndex ii <> GetStreamedIndex lat lIndex d) ->
  CalculateDensityVelocityFEq
    (map (fun ii => FOld lat (lIndex * NUMVECTORS + ii)%nat) (seq 0 NUMVECTORS))
  = (density, v_x, v_y, v_z, f_eq) ->
  FNew (fst (stream_site iLbmParams lIndex lat)) (GetStreamedIndex lat lIndex d)
  = FOld lat (lIndex * NUMVECTORS + d)
    + Omega iLbmParams
      * (FOld lat (lIndex * NUMVECTORS + d) - nth d f_eq 0).
Proof.
  intros Hd Hlater Hmoments. rewrite bulk_slot by assumption.
  destruct (moments_of_entries lat lIndex _ _ _ _ _ Hmoments) as [_ [_ Heq]].
  unfold relaxed, non_equilibrium. rewrite Heq. reflexivity.
Qed.

Lemma bulk_step_writes_relaxed_value_witness :
  FNew (fst (stream_site (mkParams (-1/2)) 0 (two_sites one_wall 0.5)))
       (GetStreamedIndex (two_sites one_wall 0.5) 0 0)
  = FOld (two_sites one_wall 0.5) (0 * NUMVECTORS + 0)
    + Omega (mkParams (-1/2))
      * (FOld (two_sites one_wall 0.5) (0 * NUMVECTORS + 0)
         - nth 0 (CalculateFeq 1 0 0 0) 0).
Proof.
  apply (bulk_step_writes_relaxed_value
           (mkParams (-1/2)) (two_sites one_wall 0.5) 0 0 1 0 0 0).
  - unfold NUMVECTORS. lia.
  - intros ii Hii. cbn [GetStreamedIndex two_sites].
    destruct ((0 =? 0)%nat && (ii =? 2)%nat); cbn; lia.
  - moments_by_evaluation.
Defined.

(** C2.  For every site and every direction [d] with a wall, after the
    two loops of the site its own entry of [FNew] at [inverse[d]] is
    [fEq[inverse[d]] + (1 + Omega) * fNeq], where [fEq] is the
    equilibrium at the density of the site and the wall velocity
    [uWall], and [uWall] and [fNeq] are what lines 64-113 leave. *)
Theorem wall_slot_receives_reconstruction (iLbmParams : LbmParameters)
    (lat : LocalLatticeData) (lIndex d : nat)
    (v_x v_y v_z uWall0 uWall1 uWall2 fNeq : R) :
  (1 <= d < NUMVECTORS)%nat ->
  HasBoundary lat lIndex d = true ->
  velocity_at lat lIndex = (v_x, v_y, v_z) ->
  wall_estimate lat lIndex d v_x v_y v_z (non_equilibrium lat lIndex)
  = ((uWall0, uWall1, uWall2), fNeq) ->
  FNew (fst (collide_site iLbmParams lIndex lat))
       (lIndex * NUMVECTORS + nth d INVERSEDIRECTIONS 0)%nat
  = nth (nth d INVERSEDIRECTIONS 0%nat)
        (CalculateFeq (density_at lat lIndex) uWall0 uWall1 uWall2) 0
    + (1 + Omega iLbmParams) * fNeq.
Proof.
  intros Hd Hb Hv He. rewrite wall_slot by assumption.
  apply wall_value_eq with (v_x := v_x) (v_y := v_y) (v_z := v_z); assumption.
Qed.

Lemma wall_slot_receives_reconstruction_witness :
  FNew (fst (collide_site (mkParams (-1/2)) 0 (two_sites one_wall 0.5)))
       (0 * NUMVECTORS + nth 1 INVERSEDIRECTIONS 0)%nat
  = nth (nth 1%nat INVERSEDIRECTIONS 0%nat)
        (CalculateFeq (density_at (two_sites one_wall 0.5) 0) 0 0 0) 0
    + (1 + Omega (mkParams (-1/2))) * (-1/18).
Proof.
  apply wall_slot_receives_reconstruction with (v_x := 0) (v_y := 0) (v_z := 0).
  - unfold NUMVECTORS. lia.
  - reflexivity.
  - evaluate. componentwise.
  - evaluate. destruct (Rlt_dec _ _) as [_ | H].
    + componentwise.
    + exfalso. apply H. lra.
Defined.

(** C3.  The interpolation is entered exactly when [delta < 0.75],
    strictly.  There, when the site has no wall in direction
    [inverse[d]], the wall velocity becomes
    [delta * uWall_a + (1-delta)(delta-1)/(1+delta) * farVelocity_a]
    on each axis and the non-equilibrium part
    [delta * fNeq + (1-delta) * (farCurrent[inverse[d]] -
    farEquilibrium[inverse[d]])], where the far site is the one direction
    [inverse[d]] streams to, [farCurrent] are its fifteen entries of
    [FOld], and [farVelocity] and [farEquilibrium] the velocity and the
    equilibrium computed from these entries.  When [delta >= 0.75] the
    values [(1 - 1/delta) * v] and [f_neq[inverse[d]]] are kept. *)
Theorem interpolation_below_three_quarters (lat : LocalLatticeData)
    (lIndex d : nat) (v_x v_y v_z : R) (f_neq : nat -> R)
    (far_density far_x far_y far_z : R) (far_eq : list R) :
  let delta := GetCutDistance lat lIndex d in
  let away := nth d INVERSEDIRECTIONS 0%nat in
  let far := (GetStreamedIndex lat lIndex away / NUMVECTORS)%nat in
  (delta < 0.75 ->
   HasBoundary lat lIndex away = false ->
   CalculateDensityVelocityFEq
     (map (fun ii => FOld lat (far * NUMVECTORS + ii)%nat) (seq 0 NUMVECTORS))
   = (far_density, far_x, far_y, far_z, far_eq) ->
   wall_estimate lat lIndex d v_x v_y v_z f_neq
   = ((delta * ((1 - 1 / delta) * v_x)
       + (1 - delta) * (delta - 1) / (1 + delta) * far_x,
       delta * ((1 - 1 / delta) * v_y)
       + (1 - delta) * (delta - 1) / (1 + delta) * far_y,
       delta * ((1 - 1 / delta) * v_z)
       + (1 - delta) * (delta - 1) / (1 + delta) * far_z),
      delta * f_neq away
      + (1 - delta) * (FOld lat (far * NUMVECTORS + away) - nth away far_eq 0)))
  /\ (0.75 <= delta ->
      wall_estimate lat lIndex d v_x v_y v_z f_neq
      = (((1 - 1 / delta) * v_x, (1 - 1 / delta) * v_y, (1 - 1 / delta) * v_z),
         f_neq away)).
Proof.
  intros delta away far. split.
  - intros Hd Hb Hmoments.
    destruct (moments_of_entries lat far _ _ _ _ _ Hmoments) as [_ [Hv Heq]].
    rewrite <- Heq. apply wall_estimate_far; assumption.
  - intros Hd. apply wall_estimate_near. exact Hd.
Qed.

Lemma interpolation_below_three_quarters_witness :
  wall_estimate (two_sites one_wall 0.5) 0 1 3 4 5 (fun _ => 7)
  = ((0.5 * ((1 - 1 / 0.5) * 3) + (1 - 0.5) * (0.5 - 1) / (1 + 0.5) * 0,
      0.5 * ((1 - 1 / 0.5) * 4) + (1 - 0.5) * (0.5 - 1) / (1 + 0.5) * 0,
      0.5 * ((1 - 1 / 0.5) * 5) + (1 - 0.5) * (0.5 - 1) / (1 + 0.5) * 0),
     0.5 * 7
     + (1 - 0.5) * (FOld (two_sites one_wall 0.5) (1 * NUMVECTORS + 2)
                    - nth 2 (CalculateFeq 1 0 0 0) 0))
  /\ wall_estimate (two_sites one_wall 0.75) 0 1 3 4 5 (fun _ => 7)
     = (((1 - 1 / 0.75) * 3, (1 - 1 / 0.75) * 4, (1 - 1 / 0.75) * 5), 7).
Proof.
  split.
  - apply (proj1 (interpolation_below_three_quarters
                    (two_sites one_wall 0.5) 0 1 3 4 5 (fun _ => 7)
                    1 0 0 0 (CalculateFeq 1 0 0 0))).
    + cbn [GetCutDistance two_sites]. lra.
    + reflexivity.
    + moments_by_evaluation.
  - apply (proj2 (interpolation_below_three_quarters
                    (two_sites one_wall 0.75) 0 1 3 4 5 (fun _ => 7)
                    1 0 0 0 (CalculateFeq 1 0 0 0))).
    cbn [GetCutDistance two_sites]. lra.
Defined.

(** C4.  When [delta < 0.75] and the site has a wall in direction
    [inverse[d]] as well, the wall velocity and the non-equilibrium part
    are set to zero, and the entry stored at [inverse[d]] is the
    equilibrium at zero velocity and the density of the site, the
    density computed from the fifteen entries of [FOld] of the site. *)
Theorem no_far_neighbour_falls_back_to_rest (iLbmParams : LbmParameters)
    (lat : LocalLatticeData) (lIndex d : nat)
    (density v_x v_y v_z : R) (f_eq : list R) :
  (1 <= d < NUMVECTORS)%nat ->
  HasBoundary lat lIndex d = true ->
  GetCutDistance lat lIndex d < 0.75 ->
  HasBoundary lat lIndex (nth d INVERSEDIRECTIONS 0%nat) = true ->
  CalculateDensityVelocityFEq
    (map (fun ii => FOld lat (lIndex * NUMVECTORS + ii)%nat) (seq 0 NUMVECTORS))
  = (density, v_x, v_y, v_z, f_eq) ->
  (forall u_x u_y u_z f_neq,
     wall_estimate lat lIndex d u_x u_y u_z f_neq = ((0, 0, 0), 0))
  /\ FNew (fst (collide_site iLbmParams lIndex lat))
          (lIndex * NUMVECTORS + nth d INVERSEDIRECTIONS 0)%nat
     = nth (nth d INVERSEDIRECTIONS 0%nat) (CalculateFeq density 0 0 0) 0.
Proof.
  intros Hd Hb Hdelta Haway Hmoments. split.
  - intros u_x u_y u_z f_neq. apply wall_estimate_zero; assumption.
  - destruct (moments_of_entries lat lIndex _ _ _ _ _ Hmoments) as [Hrho _].
    rewrite <- Hrho. rewrite wall_slot by assumption.
    rewrite (wall_value_eq iLbmParams lat lIndex d _ _ _ 0 0 0 0
                           (velocity_at_eta lat lIndex)).
    + ring.
    + apply wall_estimate_zero; assumption.
Qed.

Lemma no_far_neighbour_falls_back_to_rest_witness :
  (forall u_x u_y u_z f_neq,
     wall_estimate (two_sites facing_walls 0.5) 0 1 u_x u_y u_z f_neq
     = ((0, 0, 0), 0))
  /\ FNew (fst (collide_site (mkParams (-1/2)) 0 (two_sites facing_walls 0.5)))
          (0 * NUMVECTORS + nth 1 INVERSEDIRECTIONS 0)%nat
     = nth (nth 1%nat INVERSEDIRECTIONS 0%nat) (CalculateFeq 1 0 0 0) 0.
Proof.
  apply (no_far_neighbour_falls_back_to_rest
           (mkParams (-1/2)) (two_sites facing_walls 0.5) 0 1
           1 0 0 0 (CalculateFeq 1 0 0 0)).
  - unfold NUMVECTORS. lia.
  - reflexivity.
  - cbn [GetCutDistance two_sites]. lra.
  - reflexivity.
  - moments_by_evaluation.
Defined.

(** C7, as the code has it.  For a wall in direction [d] at
    [delta = 0.5], a site without wall in direction [inverse[d]], zero
    velocity at the site and at the site direction [inverse[d]] streams
    to: the wall velocity is zero, so the equilibrium part of the stored
    entry is the equilibrium at the density of the site at rest; the
    non-equilibrium part is the mean of the non-equilibrium parts of the
    two sites in direction [inverse[d]], and the stored entry is the sum
    of the first and [1 + Omega] times the second. *)
Theorem half_way_wall_between_resting_sites (iLbmParams : LbmParameters)
    (lat : LocalLatticeData) (lIndex d : nat) :
  let away := nth d INVERSEDIRECTIONS 0%nat in
  let far := (GetStreamedIndex lat lIndex away / NUMVECTORS)%nat in
  (1 <= d < NUMVECTORS)%nat ->
  HasBoundary lat lIndex d = true ->
  GetCutDistance lat lIndex d = 0.5 ->
  HasBoundary lat lIndex away = false ->
  velocity_at lat lIndex = (0, 0, 0) ->
  velocity_at lat far = (0, 0, 0) ->
  wall_estimate lat lIndex d 0 0 0 (non_equilibrium lat lIndex)
  = ((0, 0, 0),
     0.5 * non_equilibrium lat lIndex away + 0.5 * non_equilibrium lat far away)
  /\ FNew (fst (collide_site iLbmParams lIndex lat))
          (lIndex * NUMVECTORS + away)%nat
     = nth away (CalculateFeq (density_at lat lIndex) 0 0 0) 0
       + (1 + Omega iLbmParams)
         * (0.5 * non_equilibrium lat lIndex away
            + 0.5 * non_equilibrium lat far away).
Proof.
  intros away far Hd Hb Hdelta Haway Hv Hfar.
  assert (He : wall_estimate lat lIndex d 0 0 0 (non_equilibrium lat lIndex)
               = ((0, 0, 0),
                  0.5 * non_equilibrium lat lIndex away
                  + 0.5 * non_equilibrium lat far away)).
  { rewrite (wall_estimate_far lat lIndex d 0 0 0 _ 0 0 0);
      [| rewrite Hdelta; lra | exact Haway | exact Hfar].
    rewrite Hdelta. fold away. fold far. unfold non_equilibrium at 3.
    repeat match goal with |- (_, _) = (_, _) => apply f_equal2 end;
      try lra; field. }
  split; [exact He |].
  unfold away at 1. rewrite wall_slot by assumption.
  apply wall_value_eq with (v_x := 0) (v_y := 0) (v_z := 0); assumption.
Qed.

Lemma half_way_wall_between_resting_sites_witness :
  wall_estimate (two_sites one_wall 0.5) 0 1 0 0 0
                (non_equilibrium (two_sites one_wall 0.5) 0)
  = ((0, 0, 0),
     0.5 * non_equilibrium (two_sites one_wall 0.5) 0
             (nth 1%nat INVERSEDIRECTIONS 0%nat)
     + 0.5 * non_equilibrium (two_sites one_wall 0.5)
               (GetStreamedIndex (two_sites one_wall 0.5) 0
                  (nth 1%nat INVERSEDIRECTIONS 0%nat) / NUMVECTORS)
               (nth 1%nat INVERSEDIRECTIONS 0%nat))
  /\ FNew (fst (collide_site (mkParams (-1/2)) 0 (two_sites one_wall 0.5)))
          (0 * NUMVECTORS + nth 1%nat INVERSEDIRECTIONS 0%nat)%nat
     = nth (nth 1%nat INVERSEDIRECTIONS 0%nat)
           (CalculateFeq (density_at (two_sites one_wall 0.5) 0) 0 0 0) 0
       + (1 + Omega (mkParams (-1/2)))
         * (0.5 * non_equilibrium (two_sites one_wall 0.5) 0
                    (nth 1%nat INVERSEDIRECTIONS 0%nat)
            + 0.5 * non_equilibrium (two_sites one_wall 0.5)
                      (GetStreamedIndex (two_sites one_wall 0.5) 0
                         (nth 1%nat INVERSEDIRECTIONS 0%nat) / NUMVECTORS)
                      (nth 1%nat INVERSEDIRECTIONS 0%nat)).
Proof.
  apply (half_way_wall_between_resting_sites
           (mkParams (-1/2)) (two_sites one_wall 0.5) 0 1).
  - unfold NUMVECTORS. lia.
  - reflexivity.
  - reflexivity.
  - reflexivity.
  - evaluate. componentwise.
  - evaluate. componentwise.
Defined.

(** The statement of C7 fails on the lattice [two_sites one_wall 0.5]
    with [Omega = -1/2]: the wall of site 0 in direction 1 is at
    [delta = 0.5], both sites are at rest and site 1 is the site
    direction 2 streams to, yet the stored entry is [1/12] while the
    equilibrium of site 0 at rest is [1/9] in direction 2, and the
    non-equilibrium part is [-1/18], not the [-1/9] of site 0 alone. *)
Lemma half_way_wall_is_not_plain_equilibrium :
  let lat := two_sites one_wall 0.5 in
  HasBoundary lat 0 1 = true
  /\ GetCutDistance lat 0 1 = 0.5
  /\ nth 1%nat INVERSEDIRECTIONS 0%nat = 2%nat
  /\ HasBoundary lat 0 2 = false
  /\ (GetStreamedIndex lat 0 2 / NUMVECTORS)%nat = 1%nat
  /\ velocity_at lat 0 = (0, 0, 0)
  /\ velocity_at lat 1 = (0, 0, 0)
  /\ FNew (fst (collide_site (mkParams (-1/2)) 0 lat)) (0 * NUMVECTORS + 2)%nat
     = 1 / 12
  /\ nth 2 (CalculateFeq (density_at lat 0) 0 0 0) 0 = 1 / 9
  /\ FNew (fst (collide_site (mkParams (-1/2)) 0 lat)) (0 * NUMVECTORS + 2)%nat
     <> nth 2 (CalculateFeq (density_at lat 0) 0 0 0) 0
  /\ snd (wall_estimate lat 0 1 0 0 0 (non_equilibrium lat 0)) = - 1 / 18
  /\ non_equilibrium lat 0 2 = - 1 / 9.
Proof.
  intros lat.
  assert (Hstored : FNew (fst (collide_site (mkParams (-1/2)) 0 lat))
                         (0 * NUMVECTORS + 2)%nat = 1 / 12).
  { change 2%nat with (nth 1%nat INVERSEDIRECTIONS 0%nat) at 1.
    rewrite wall_slot; [| unfold NUMVECTORS; lia | reflexivity].
    evaluate. destruct (Rlt_dec _ _) as [_ | H]; [field |].
    exfalso. apply H. lra. }
  assert (Heq : nth 2 (CalculateFeq (density_at lat 0) 0 0 0) 0 = 1 / 9).
  { evaluate. field. }
  repeat split; try reflexivity; try assumption.
  - evaluate. componentwise.
  - evaluate. componentwise.
  - rewrite Hstored, Heq. lra.
  - evaluate. destruct (Rlt_dec _ _) as [_ | H]; [field |].
    exfalso. apply H. lra.
  - evaluate. field.
Qed.

(** C6.  On a closed lattice of [iSiteCount] sites without walls, one
    pass of the collision operator over all the sites leaves in [FNew]
    the mass that [FOld] holds: the sums over all sites and directions
    agree. *)
Theorem closed_bulk_pass_conserves_mass (MinsAndMaxes : Type)
    (UpdateMinsAndMaxes :
       bool -> R -> R -> R -> nat -> (nat -> R) -> R ->
       MinsAndMaxes -> LocalLatticeData -> LbmParameters -> MinsAndMaxes)
    (tRayTracing : bool) (iSiteCount : nat) (iLbmParams : LbmParameters)
    (bMinimaAndMaxima : MinsAndMaxes) (lat : LocalLatticeData) :
  closed_bulk lat iSiteCount ->
  total (FNew (snd (DoCollisionsInternal MinsAndMaxes UpdateMinsAndMaxes
                      tRayTracing 0 iSiteCount iLbmParams
                      bMinimaAndMaxima lat)))
        (iSiteCount * NUMVECTORS)
  = total (FOld lat) (iSiteCount * NUMVECTORS).
Proof.
  intros Hclosed.
  rewrite DoCollisionsInternal_writes, FNew_with_FNew.
  rewrite (pass_writes iLbmParams lat iSiteCount Hclosed).
  - apply pass_mass. exact Hclosed.
  - apply Forall_forall. intros s Hs. apply in_seq in Hs. lia.
Qed.

Lemma periodic_sites_closed (n : nat) : closed_bulk periodic_sites n.
Proof.
  split; unfold NUMVECTORS; cbn [HasBoundary GetStreamedIndex periodic_sites].
  - reflexivity.
  - intros s d Hs Hd. nia.
  - intros s d s' d' Hs Hd Hs' Hd' Heq. lia.
Qed.

Lemma closed_bulk_pass_conserves_mass_witness :
  total (FNew (snd (DoCollisionsInternal unit no_extrema false 0 2
                      (mkParams (-1/2)) tt periodic_sites)))
        (2 * NUMVECTORS)
  = total (FOld periodic_sites) (2 * NUMVECTORS).
Proof.
  apply closed_bulk_pass_conserves_mass. apply periodic_sites_closed.
Defined.
End CollisionClaims.

(* ================================================================== *)
(** * The colloid boundary conditions: the properties claimed *)
(* ================================================================== *)

Module BoundaryConditionsClaims.
Import BoundaryConditions ColloidExamples.
Local Open Scope R_scope.





Section Dispatch.
Variable Particle : Type.
Variable GetGlobalPosition : Particle -> LatticePosition.





End Dispatch.





End BoundaryConditionsClaims.

(* ================================================================== *)
(** * Further properties of the pixels *)
(* ================================================================== *)

Module ColPixelOpsFacts.
Import ColPixel ColPixelFacts ColPixelOps.
Local Open Scope Z_scope.

Lemma flag_value : mMostSignificantBit = 2 ^ 31.
Proof. reflexivity. Qed.

Lemma land_flag (a : Z) :
  Z.land a mMostSignificantBit
  = if Z.testbit a 31 then mMostSignificantBit else 0.
Proof.
  apply Z.bits_inj'. intros n Hn. rewrite Z.land_spec.
  rewrite flag_value at 1. rewrite Z.pow2_bits_eqb by lia.
  destruct (Z.eqb_spec 31 n) as [<- | Hne].
  - rewrite andb_true_r. destruct (Z.testbit a 31) eqn:E.
    + rewrite flag_value, Z.pow2_bits_true by lia. reflexivity.
    + rewrite Z.bits_0. reflexivity.
  - rewrite andb_false_r. destruct (Z.testbit a 31).
    + rewrite flag_value, Z.pow2_bits_false by lia. reflexivity.
    + rewrite Z.bits_0. reflexivity.
Qed.

Lemma flag_test (a : Z) :
  negb (Z.land a mMostSignificantBit =? 0) = Z.testbit a 31.
Proof.
  rewrite land_flag. destruct (Z.testbit a 31); reflexivity.
Qed.

Lemma testbit_top (i : Z) :
  0 <= i < 2 ^ 32 -> Z.testbit i 31 = (2 ^ 31 <=? i).
Proof.
  intros Hi. rewrite Z.testbit_eqb by lia.
  assert (Hq : i / 2 ^ 31 = if 2 ^ 31 <=? i then 1 else 0).
  { destruct (Z.leb_spec (2 ^ 31) i).
    - symmetry. apply (Z.div_unique i (2 ^ 31) 1 (i - 2 ^ 31)); lia.
    - apply Z.div_small. lia. }
  rewrite Hq. destruct (2 ^ 31 <=? i); reflexivity.
Qed.

Lemma low_part_range (m : Z) : 0 <= Z.land m (Z.ones 31) < 2 ^ 31.
Proof. rewrite Z.land_ones by lia. apply Z.mod_pos_bound. lia. Qed.

Lemma word32_land_ones (a : Z) : word32 a <-> Z.land a (Z.ones 32) = a.
Proof.
  unfold word32. rewrite Z.land_ones by lia. split.
  - intros H. apply Z.mod_small. exact H.
  - intros <-. apply Z.mod_pos_bound. lia.
Qed.

Lemma word32_lor (a b : Z) : word32 a -> word32 b -> word32 (Z.lor a b).
Proof.
  rewrite !word32_land_ones. intros Ha Hb.
  rewrite Z.land_lor_distr_l, Ha, Hb. reflexivity.
Qed.

Lemma word32_land_r (a b : Z) : word32 b -> word32 (Z.land a b).
Proof.
  rewrite !word32_land_ones. intros Hb.
  rewrite <- Z.land_assoc, Hb. reflexivity.
Qed.

Lemma word32_flag : word32 mMostSignificantBit.
Proof. rewrite flag_value. unfold word32. lia. Qed.

Lemma word32_low : word32 (unot mMostSignificantBit).
Proof. rewrite unot_flag. unfold word32. cbn. lia. Qed.

Lemma SetI_observe (i : Z) (p : t) :
  0 <= i < 2 ^ 32 ->
  observe (SetI i p)
  = mkview (i mod 2 ^ 31) (GetJ p) (IsGlyph p || (2 ^ 31 <=? i))
           (IsStreakline p).
Proof.
  intros Hi. destruct p as [a b].
  unfold observe, SetI, GetI, GetJ, IsGlyph, IsStreakline.
  cbn [mI mJ]. rewrite !unot_flag, !flag_test.
  rewrite !Z.land_lor_distr_l, !flag_part_low, !Z.lor_0_r.
  rewrite !Z.lor_spec, !Z.land_spec.
  rewrite (Z.land_ones i 31) by lia.
  rewrite (testbit_top i Hi).
  replace (Z.testbit mMostSignificantBit 31) with true by reflexivity.
  rewrite !andb_true_r. f_equal. apply orb_comm.
Qed.

Lemma SetJ_observe (i : Z) (p : t) :
  0 <= i < 2 ^ 32 ->
  observe (SetJ i p)
  = mkview (GetI p) (i mod 2 ^ 31) (IsGlyph p)
           (IsStreakline p || (2 ^ 31 <=? i)).
Proof.
  intros Hi. destruct p as [a b].
  unfold observe, SetJ, GetI, GetJ, IsGlyph, IsStreakline.
  cbn [mI mJ]. rewrite !unot_flag, !flag_test.
  rewrite !Z.land_lor_distr_l, !flag_part_low, !Z.lor_0_r.
  rewrite !Z.lor_spec, !Z.land_spec.
  rewrite (Z.land_ones i 31) by lia.
  rewrite (testbit_top i Hi).
  replace (Z.testbit mMostSignificantBit 31) with true by reflexivity.
  rewrite !andb_true_r. f_equal. apply orb_comm.
Qed.

(** X1.  [SetI] with any 32-bit argument: [GetI] returns the low 31 bits
    of the argument, and the glyph flag is raised when bit 31 of the
    argument is set and kept as it was otherwise; [SetI] never lowers
    it.  [GetJ] and the streakline flag are not affected.  [SetJ] acts
    in the same way on the other word. *)
Theorem coordinate_with_top_bit_raises_flag (i : Z) (p : t) :
  0 <= i < 2 ^ 32 ->
  observe (SetI i p)
  = mkview (i mod 2 ^ 31) (GetJ p) (IsGlyph p || (2 ^ 31 <=? i))
           (IsStreakline p)
  /\ observe (SetJ i p)
     = mkview (GetI p) (i mod 2 ^ 31) (IsGlyph p)
              (IsStreakline p || (2 ^ 31 <=? i)).
Proof.
  intros Hi. split; [apply SetI_observe | apply SetJ_observe]; exact Hi.
Qed.

Lemma coordinate_with_top_bit_raises_flag_witness :
  observe (SetI (2 ^ 31 + 5) (mk 0 0)) = mkview 5 0 true false
  /\ observe (SetJ (2 ^ 31 + 5) (mk 0 0)) = mkview 0 5 false true.
Proof.
  apply (coordinate_with_top_bit_raises_flag (2 ^ 31 + 5) (mk 0 0)). lia.
Defined.

Lemma getters_range (p : t) : 0 <= GetI p < 2 ^ 31 /\ 0 <= GetJ p < 2 ^ 31.
Proof.
  unfold GetI, GetJ. rewrite unot_flag. split; apply low_part_range.
Qed.

(** X2.  The coordinates reported never contain the flag bit, whatever
    the two words hold, and a setter called with a 32-bit argument on
    32-bit words leaves 32-bit words. *)
Theorem words_and_coordinates_in_range (p : t) (c : call) :
  (0 <= GetI p < 2 ^ 31 /\ 0 <= GetJ p < 2 ^ 31)
  /\ (word32 (mI p) -> word32 (mJ p) -> argument32 c ->
      word32 (mI (perform p c)) /\ word32 (mJ (perform p c))).
Proof.
  split.
  - apply getters_range.
  - intros HI HJ Hc.
    destruct c as [v | v | [|] | [|]]; cbn [perform argument32] in *;
      unfold SetI, SetJ, SetGlyph, SetStreakline; cbn [mI mJ];
      (split; try assumption);
      repeat first [ apply word32_lor | apply word32_land_r
                   | exact word32_flag | exact word32_low | assumption ].
Qed.

Lemma words_and_coordinates_in_range_witness :
  (0 <= GetI (mk 4294967295 7) < 2 ^ 31 /\ 0 <= GetJ (mk 4294967295 7) < 2 ^ 31)
  /\ word32 (mI (perform (mk 4294967295 7) (CallSetI 4294967295)))
  /\ word32 (mJ (perform (mk 4294967295 7) (CallSetI 4294967295))).
Proof.
  destruct (words_and_coordinates_in_range (mk 4294967295 7)
                                           (CallSetI 4294967295)) as [H1 H2].
  split; [exact H1 |].
  apply H2; unfold argument32, word32; cbn [mI mJ]; lia.
Defined.

Lemma to_unsigned_small (i : Z) : 0 <= i < 2 ^ 31 -> to_unsigned i = i.
Proof. intros Hi. unfold to_unsigned. apply Z.mod_small. lia. Qed.

(** X3.  Each constructor that takes coordinates, called with
    coordinates from [0] to [2^31 - 1], yields a pixel that reports
    these coordinates and the flags of its kind, whatever the storage of
    the object held before; the default constructor lowers both flags
    and reports as coordinates the low 31 bits found in the storage. *)
Theorem constructors_initialise (iI iJ : Z) (iIsGlyph : bool) (p : t) :
  0 <= iI < 2 ^ 31 -> 0 <= iJ < 2 ^ 31 ->
  observe (ColPixel_glyph iI iJ iIsGlyph p) = mkview iI iJ iIsGlyph false
  /\ observe (ColPixel_streakline iI iJ p) = mkview iI iJ false true
  /\ observe (ColPixel_ray iI iJ p) = mkview iI iJ false false
  /\ observe (ColPixel_default p) = mkview (GetI p) (GetJ p) false false.
Proof.
  intros HI HJ.
  unfold ColPixel_glyph, ColPixel_streakline, ColPixel_ray, ColPixel_default.
  rewrite !to_unsigned_small by assumption.
  change (SetJ iJ ?q) with (perform q (CallSetJ iJ)).
  change (SetI iI ?q) with (perform q (CallSetI iI)).
  change (SetStreakline ?b ?q) with (perform q (CallSetStreakline b)).
  change (SetGlyph ?b ?q) with (perform q (CallSetGlyph b)).
  rewrite !perform_observe by (cbn [coordinate]; auto).
  repeat split.
Qed.

Lemma constructors_initialise_witness :
  observe (ColPixel_glyph 640 480 true (mk 4294967295 4294967295))
  = mkview 640 480 true false
  /\ observe (ColPixel_streakline 640 480 (mk 4294967295 4294967295))
     = mkview 640 480 false true
  /\ observe (ColPixel_ray 640 480 (mk 4294967295 4294967295))
     = mkview 640 480 false false
  /\ observe (ColPixel_default (mk 4294967295 4294967295))
     = mkview (GetI (mk 4294967295 4294967295))
              (GetJ (mk 4294967295 4294967295)) false false.
Proof.
  apply (constructors_initialise 640 480 true (mk 4294967295 4294967295)); lia.
Defined.

(** X4.  For a pixel with [GetI] below [2^15] and [GetJ] below [2^16],
    the index written by [rawWritePixel] is [GetI * 65536 + GetJ]; it
    gives back [GetI] in its bits from 16 up and [GetJ] in its low 16
    bits. *)
Theorem pixel_index_round_trip (p : t) :
  GetI p < 2 ^ 15 -> GetJ p < 2 ^ 16 ->
  pixel_index p = GetI p * 65536 + GetJ p
  /\ Z.shiftr (pixel_index p) 16 = GetI p
  /\ Z.land (pixel_index p) 65535 = GetJ p.
Proof.
  intros HI HJ.
  destruct (getters_range p) as [HI0 HJ0].
  assert (Hidx : pixel_index p = GetI p * 65536 + GetJ p).
  { unfold pixel_index, bits_per_char, to_int.
    rewrite Z.shiftl_mul_pow2 by lia. change (2 ^ (2 * (1 * 8))) with 65536.
    rewrite (Z.mod_small (GetI p * 65536)) by lia.
    rewrite Z.mod_small by lia.
    destruct (Z.ltb_spec (GetI p * 65536 + GetJ p) (2 ^ 31)); lia. }
  rewrite Hidx. split; [reflexivity | split].
  - rewrite Z.shiftr_div_pow2 by lia. change (2 ^ 16) with 65536.
    rewrite Z.div_add_l by lia. rewrite Z.div_small by lia. lia.
  - change 65535 with (Z.ones 16). rewrite Z.land_ones by lia.
    change (2 ^ 16) with 65536.
    rewrite Z.add_comm, Z.mod_add by lia. apply Z.mod_small. lia.
Qed.

Lemma pixel_index_round_trip_witness :
  pixel_index (SetJ 480 (SetI 640 (mk 0 0)))
  = GetI (SetJ 480 (SetI 640 (mk 0 0))) * 65536
    + GetJ (SetJ 480 (SetI 640 (mk 0 0)))
  /\ Z.shiftr (pixel_index (SetJ 480 (SetI 640 (mk 0 0)))) 16
     = GetI (SetJ 480 (SetI 640 (mk 0 0)))
  /\ Z.land (pixel_index (SetJ 480 (SetI 640 (mk 0 0)))) 65535
     = GetJ (SetJ 480 (SetI 640 (mk 0 0))).
Proof.
  apply pixel_index_round_trip; vm_compute; reflexivity.
Defined.
End ColPixelOpsFacts.

Module MergeFacts.
Import ColPixel ColPixelFacts ColPixelOps ColPixelOpsFacts.

Section Merging.
Variable RayDataType : Type.
Variable ContainsRayData : RayDataType -> bool.
Variable RayMergeIn : RayDataType -> RayDataType -> VisSettings -> RayDataType.

Local Notation pixel := (pixel RayDataType).
Local Notation MergeIn := (MergeIn RayDataType ContainsRayData RayMergeIn).
Local Notation MergeRayTracingData :=
  (MergeRayTracingData RayDataType ContainsRayData RayMergeIn).

Lemma MergeRayTracingData_rest (a b : pixel) (s : VisSettings) :
  words RayDataType (MergeRayTracingData a b s) = words RayDataType a
  /\ streak_data RayDataType (MergeRayTracingData a b s)
     = streak_data RayDataType a.
Proof.
  unfold ColPixelOps.MergeRayTracingData.
  destruct (ContainsRayData (mRayData RayDataType b));
    [destruct (ContainsRayData (mRayData RayDataType a)) |]; split; reflexivity.
Qed.

Lemma raise_glyph (w : t) :
  observe (SetGlyph true w) = mkview (GetI w) (GetJ w) true (IsStreakline w).
Proof. apply (perform_observe w (CallSetGlyph true)). exact I. Qed.

Lemma raise_streakline (w : t) :
  observe (SetStreakline true w) = mkview (GetI w) (GetJ w) (IsGlyph w) true.
Proof. apply (perform_observe w (CallSetStreakline true)). exact I. Qed.

(** X5.  Merging another pixel into a pixel keeps the coordinates and
    never lowers a flag: in the mode with glyphs the glyph flag becomes
    the disjunction of the two glyph flags and the streakline flag is
    kept; in every other mode the streakline flag becomes the
    disjunction of the two streakline flags and the glyph flag is
    kept. *)
Theorem merge_keeps_coordinates_and_joins_flags (a b : pixel)
    (s : VisSettings) :
  observe (words RayDataType (MergeIn a b s))
  = mkview (GetI (words RayDataType a)) (GetJ (words RayDataType a))
           (IsGlyph (words RayDataType a)
            || (with_glyphs s && IsGlyph (words RayDataType b)))
           (IsStreakline (words RayDataType a)
            || (negb (with_glyphs s) && IsStreakline (words RayDataType b))).
Proof.
  unfold ColPixelOps.MergeIn, with_glyphs.
  destruct (MergeRayTracingData_rest a b s) as [Hw _].
  set (a' := MergeRayTracingData a b s) in *.
  assert (Hplain : observe (words RayDataType a')
                   = mkview (GetI (words RayDataType a))
                            (GetJ (words RayDataType a))
                            (IsGlyph (words RayDataType a))
                            (IsStreakline (words RayDataType a)))
    by (rewrite Hw; reflexivity).
  destruct (mode s); cbn [negb andb].
  - destruct (IsStreakline (words RayDataType b)).
    + destruct (IsStreakline (words RayDataType a')) eqn:Ea; cbn [negb].
      * rewrite Hw in Ea.
        destruct (Rlt_dec _ _); cbn [words]; rewrite Hplain, Ea, !orb_false_r;
          reflexivity.
      * cbn [words]. rewrite raise_streakline, Hw, !orb_false_r, orb_true_r.
        reflexivity.
    + rewrite Hplain, !orb_false_r. reflexivity.
  - destruct (IsGlyph (words RayDataType b)).
    + cbn [words]. rewrite raise_glyph, Hw, orb_true_r, orb_false_r.
      reflexivity.
    + rewrite Hplain, !orb_false_r. reflexivity.
  - destruct (IsStreakline (words RayDataType b)).
    + destruct (IsStreakline (words RayDataType a')) eqn:Ea; cbn [negb].
      * rewrite Hw in Ea.
        destruct (Rlt_dec _ _); cbn [words]; rewrite Hplain, Ea, !orb_false_r;
          reflexivity.
      * cbn [words]. rewrite raise_streakline, Hw, !orb_false_r, orb_true_r.
        reflexivity.
    + rewrite Hplain, !orb_false_r. reflexivity.
Qed.

(** X6.  The streakline data (velocity, depth and inlet of the
    particle) of the merged pixel are those of one of the two pixels,
    taken together.  When the other pixel is a streakline and the mode
    is not the one with glyphs, they are the data of the other pixel if
    the pixel was no streakline or the other particle is strictly nearer
    (smaller [particle_z]), and the data of the pixel itself if it was a
    streakline with a particle at most as deep.  In the mode with
    glyphs, or when the other pixel is no streakline, they are
    kept. *)
Theorem merge_keeps_nearest_particle (a b : pixel) (s : VisSettings) :
  (with_glyphs s = false ->
   IsStreakline (words RayDataType b) = true ->
   (IsStreakline (words RayDataType a) = false
    \/ (particle_z RayDataType b < particle_z RayDataType a)%R) ->
   streak_data RayDataType (MergeIn a b s) = streak_data RayDataType b)
  /\ (with_glyphs s = false ->
      IsStreakline (words RayDataType b) = true ->
      IsStreakline (words RayDataType a) = true ->
      (particle_z RayDataType a <= particle_z RayDataType b)%R ->
      streak_data RayDataType (MergeIn a b s) = streak_data RayDataType a)
  /\ (with_glyphs s = true \/ IsStreakline (words RayDataType b) = false ->
      streak_data RayDataType (MergeIn a b s) = streak_data RayDataType a).
Proof.
  unfold ColPixelOps.MergeIn, with_glyphs.
  destruct (MergeRayTracingData_rest a b s) as [Hw Hd].
  set (a' := MergeRayTracingData a b s) in *.
  assert (Hz : particle_z RayDataType a' = particle_z RayDataType a).
  { unfold streak_data in Hd. congruence. }
  split; [| split].
  - intros Hm Hb Hnear. rewrite Hb, Hw.
    destruct (mode s); try discriminate Hm.
    + destruct (IsStreakline (words RayDataType a)) eqn:Ea; cbn [negb].
      * destruct Hnear as [Hf | Hlt]; [discriminate Hf |].
        destruct (Rlt_dec _ _) as [_ | Hge]; [reflexivity |].
        exfalso. apply Hge. rewrite Hz. exact Hlt.
      * reflexivity.
    + destruct (IsStreakline (words RayDataType a)) eqn:Ea; cbn [negb].
      * destruct Hnear as [Hf | Hlt]; [discriminate Hf |].
        destruct (Rlt_dec _ _) as [_ | Hge]; [reflexivity |].
        exfalso. apply Hge. rewrite Hz. exact Hlt.
      * reflexivity.
  - intros Hm Hb Ha Hle. rewrite Hb, Hw, Ha. cbn [negb].
    destruct (mode s); try discriminate Hm;
      (destruct (Rlt_dec _ _) as [Hlt | _]; [rewrite Hz in Hlt; lra | exact Hd]).
  - intros [Hm | Hb].
    + destruct (mode s); try discriminate Hm.
      destruct (IsGlyph (words RayDataType b)); [| exact Hd].
      unfold streak_data in *. cbn [particle_vel particle_z mParticleInletId].
      exact Hd.
    + rewrite Hb. destruct (mode s); try exact Hd.
      destruct (IsGlyph (words RayDataType b)); [| exact Hd].
      unfold streak_data in *. cbn [particle_vel particle_z mParticleInletId].
      exact Hd.
Qed.
End Merging.

Lemma merge_keeps_nearest_particle_witness :
  streak_data unit
    (MergeIn unit (fun _ => false) (fun a _ _ => a)
             (streakline_pixel 3 7) (streakline_pixel 2 8)
             (mkVisSettings ISOSURFACES))
  = streak_data unit (streakline_pixel 2 8)
  /\ streak_data unit
       (MergeIn unit (fun _ => false) (fun a _ _ => a)
                (streakline_pixel 1 7) (streakline_pixel 2 8)
                (mkVisSettings ISOSURFACES))
     = streak_data unit (streakline_pixel 1 7)
  /\ streak_data unit
       (MergeIn unit (fun _ => false) (fun a _ _ => a)
                (streakline_pixel 3 7) (streakline_pixel 2 8)
                (mkVisSettings ISOSURFACESANDGLYPHS))
     = streak_data unit (streakline_pixel 3 7).
Proof.
  split; [| split].
  - apply (proj1 (merge_keeps_nearest_particle unit (fun _ => false)
                    (fun a _ _ => a)
                    (streakline_pixel 3 7) (streakline_pixel 2 8)
                    (mkVisSettings ISOSURFACES))).
    + reflexivity.
    + reflexivity.
    + right. cbn [particle_z streakline_pixel]. lra.
  - apply (proj1 (proj2 (merge_keeps_nearest_particle unit (fun _ => false)
                           (fun a _ _ => a)
                           (streakline_pixel 1 7) (streakline_pixel 2 8)
                           (mkVisSettings ISOSURFACES)))).
    + reflexivity.
    + reflexivity.
    + reflexivity.
    + cbn [particle_z streakline_pixel]. lra.
  - apply (proj2 (proj2 (merge_keeps_nearest_particle unit (fun _ => false)
                           (fun a _ _ => a)
                           (streakline_pixel 3 7) (streakline_pixel 2 8)
                           (mkVisSettings ISOSURFACESANDGLYPHS)))).
    left. reflexivity.
Defined.
End MergeFacts.

(* ================================================================== *)
(** * Further properties of the collision operator *)
(* ================================================================== *)

Module PassFacts.
Import D3Q15 D3Q15Facts ImplGuoZhengShi ImplGuoZhengShiFacts.
Import WallTreatment MassConservation Examples Slots.
Local Open Scope R_scope.

Lemma DoCollisions_writes (MinsAndMaxes : Type)
    (UpdateMinsAndMaxes :
       bool -> R -> R -> R -> nat -> (nat -> R) -> R ->
       MinsAndMaxes -> LocalLatticeData -> LbmParameters -> MinsAndMaxes)
    (iDoRayTracing : bool) (iFirstIndex iSiteCount : nat)
    (iLbmParams : LbmParameters) (mm : MinsAndMaxes) (lat : LocalLatticeData) :
  snd (DoCollisions MinsAndMaxes UpdateMinsAndMaxes iDoRayTracing
                    iFirstIndex iSiteCount iLbmParams mm lat)
  = with_FNew lat
      (store_all (flat_map (site_writes iLbmParams lat)
                           (seq iFirstIndex iSiteCount))
                 (FNew lat)).
Proof.
  unfold DoCollisions.
  destruct iDoRayTracing; apply DoCollisionsInternal_writes.
Qed.

Lemma slots_keys (iLbmParams : LbmParameters) (lat : LocalLatticeData)
    (lIndex : nat) :
  map fst (site_writes iLbmParams lat lIndex) = slots lat lIndex.
Proof.
  unfold site_writes, slots, bulk_writes, wall_writes.
  rewrite map_app, map_map. cbn [fst]. f_equal.
  induction (seq 1 (NUMVECTORS - 1)) as [| l ls IH]; [reflexivity |].
  cbn [flat_map]. rewrite map_app, IH.
  destruct (HasBoundary lat lIndex l); reflexivity.
Qed.

Lemma pass_slots (iLbmParams : LbmParameters) (lat : LocalLatticeData)
    (sites : list nat) :
  map fst (flat_map (site_writes iLbmParams lat) sites)
  = flat_map (slots lat) sites.
Proof.
  induction sites as [| s sites IH]; [reflexivity |].
  cbn [flat_map]. rewrite map_app, IH, slots_keys. reflexivity.
Qed.

(** X8.  A slot of [FNew] that no site of the pass assigns keeps its
    content. *)
Theorem pass_leaves_other_slots (MinsAndMaxes : Type)
    (UpdateMinsAndMaxes :
       bool -> R -> R -> R -> nat -> (nat -> R) -> R ->
       MinsAndMaxes -> LocalLatticeData -> LbmParameters -> MinsAndMaxes)
    (iDoRayTracing : bool) (iFirstIndex iSiteCount : nat)
    (iLbmParams : LbmParameters) (mm : MinsAndMaxes) (lat : LocalLatticeData)
    (k : nat) :
  (forall s, (iFirstIndex <= s < iFirstIndex + iSiteCount)%nat ->
             ~ In k (slots lat s)) ->
  FNew (snd (DoCollisions MinsAndMaxes UpdateMinsAndMaxes iDoRayTracing
                          iFirstIndex iSiteCount iLbmParams mm lat)) k
  = FNew lat k.
Proof.
  intros Hk. rewrite DoCollisions_writes, FNew_with_FNew.
  apply store_all_untouched. rewrite pass_slots.
  intros Hin. apply in_flat_map in Hin. destruct Hin as [s [Hs Hin]].
  apply in_seq in Hs. apply (Hk s); [lia | exact Hin].
Qed.

Lemma pass_leaves_other_slots_witness :
  FNew (snd (DoCollisions unit no_extrema true 0 1 (mkParams (-1/2)) tt
                          (two_sites one_wall 0.5))) 20
  = FNew (two_sites one_wall 0.5) 20.
Proof.
  apply pass_leaves_other_slots.
  intros s Hs. assert (s = 0%nat) as -> by lia.
  vm_compute. intros H.
  repeat (destruct H as [H | H]; [discriminate H |]). exact H.
Defined.

(** X9.  On a closed lattice without walls, after a pass over all the
    sites every slot a direction streams to holds the relaxed value of
    that direction at its site of origin: the pass is a collision at
    each site followed by the relocation of each value. *)
Theorem closed_pass_relocates (MinsAndMaxes : Type)
    (UpdateMinsAndMaxes :
       bool -> R -> R -> R -> nat -> (nat -> R) -> R ->
       MinsAndMaxes -> LocalLatticeData -> LbmParameters -> MinsAndMaxes)
    (iDoRayTracing : bool) (iSiteCount : nat)
    (iLbmParams : LbmParameters) (mm : MinsAndMaxes) (lat : LocalLatticeData)
    (s d : nat) :
  closed_bulk lat iSiteCount ->
  (s < iSiteCount)%nat -> (d < NUMVECTORS)%nat ->
  FNew (snd (DoCollisions MinsAndMaxes UpdateMinsAndMaxes iDoRayTracing
                          0 iSiteCount iLbmParams mm lat))
       (GetStreamedIndex lat s d)
  = FOld lat (s * NUMVECTORS + d)
    + Omega iLbmParams
      * (FOld lat (s * NUMVECTORS + d) - nth d (equilibrium_at lat s) 0).
Proof.
  intros Hclosed Hs Hd.
  assert (Hall : Forall (fun s => (s < iSiteCount)%nat) (seq 0 iSiteCount)).
  { apply Forall_forall. intros s' Hs'. apply in_seq in Hs'. lia. }
  rewrite DoCollisions_writes, FNew_with_FNew.
  rewrite (pass_writes iLbmParams lat iSiteCount Hclosed _ Hall).
  apply store_all_once.
  - apply (pass_keys_NoDup iLbmParams lat iSiteCount Hclosed);
      [apply seq_NoDup | exact Hall].
  - apply in_flat_map. exists s. split; [apply in_seq; lia |].
    unfold bulk_writes.
    apply (in_map (fun d => (GetStreamedIndex lat s d,
                             relaxed iLbmParams lat s d))).
    apply in_seq. lia.
Qed.

Lemma closed_pass_relocates_witness :
  FNew (snd (DoCollisions unit no_extrema false 0 2 (mkParams (-1/2)) tt
                          periodic_sites))
       (GetStreamedIndex periodic_sites 1 3)
  = FOld periodic_sites (1 * NUMVECTORS + 3)
    + Omega (mkParams (-1/2))
      * (FOld periodic_sites (1 * NUMVECTORS + 3)
         - nth 3 (equilibrium_at periodic_sites 1) 0).
Proof.
  apply closed_pass_relocates.
  - apply CollisionClaims.periodic_sites_closed.
  - lia.
  - unfold NUMVECTORS. lia.
Defined.

Lemma store_all_at (ws : list (nat * R)) (m m' : nat -> R) (k : nat) :
  m k = m' k -> store_all ws m k = store_all ws m' k.
Proof.
  revert m m'. induction ws as [| [i v] ws IH]; intros m m' H.
  - exact H.
  - change (store_all ws (store m i v) k = store_all ws (store m' i v) k).
    apply IH. unfold store. destruct (Nat.eqb k i); [reflexivity | exact H].
Qed.

Lemma store_all_swap (ws ws' : list (nat * R)) (m : nat -> R) (k : nat) :
  (forall i, In i (map fst ws) -> ~ In i (map fst ws')) ->
  store_all (ws ++ ws') m k = store_all (ws' ++ ws) m k.
Proof.
  intros Hdisjoint. rewrite !store_all_app.
  destruct (in_dec Nat.eq_dec k (map fst ws)) as [Hin | Hout].
  - rewrite (store_all_untouched ws' (store_all ws m) k) by auto.
    apply store_all_at. symmetry. apply store_all_untouched. auto.
  - rewrite (store_all_untouched ws (store_all ws' m) k) by exact Hout.
    apply store_all_at. apply store_all_untouched. exact Hout.
Qed.

(** X11.  Two passes over ranges of sites that assign no common slot of
    [FNew] can be run in either order: every slot of [FNew] ends with
    the same content. *)
Theorem passes_commute (MinsAndMaxes : Type)
    (UpdateMinsAndMaxes :
       bool -> R -> R -> R -> nat -> (nat -> R) -> R ->
       MinsAndMaxes -> LocalLatticeData -> LbmParameters -> MinsAndMaxes)
    (iDoRayTracing : bool) (first1 count1 first2 count2 : nat)
    (iLbmParams : LbmParameters) (mm : MinsAndMaxes) (lat : LocalLatticeData)
    (k : nat) :
  (forall s1 s2 i,
     (first1 <= s1 < first1 + count1)%nat ->
     (first2 <= s2 < first2 + count2)%nat ->
     In i (slots lat s1) -> ~ In i (slots lat s2)) ->
  let run first count (st : MinsAndMaxes * LocalLatticeData) :=
    DoCollisions MinsAndMaxes UpdateMinsAndMaxes iDoRayTracing
                 first count iLbmParams (fst st) (snd st) in
  FNew (snd (run first2 count2 (run first1 count1 (mm, lat)))) k
  = FNew (snd (run first1 count1 (run first2 count2 (mm, lat)))) k.
Proof.
  intros Hdisjoint run. unfold run. cbn [fst snd].
  rewrite !DoCollisions_writes, !FNew_with_FNew.
  change (flat_map (site_writes iLbmParams (with_FNew lat ?x)))
    with (flat_map (site_writes iLbmParams lat)).
  rewrite <- !store_all_app. apply store_all_swap.
  intros i H1 H2. rewrite pass_slots in H1, H2.
  apply in_flat_map in H1. destruct H1 as [s1 [Hs1 H1]].
  apply in_flat_map in H2. destruct H2 as [s2 [Hs2 H2]].
  apply in_seq in Hs1. apply in_seq in Hs2.
  apply (Hdisjoint s1 s2 i); [lia | lia | exact H1 | exact H2].
Qed.

Lemma passes_commute_witness :
  FNew (snd (DoCollisions unit no_extrema false 1 1 (mkParams (-1/2))
               (fst (DoCollisions unit no_extrema false 0 1 (mkParams (-1/2))
                       tt periodic_sites))
               (snd (DoCollisions unit no_extrema false 0 1 (mkParams (-1/2))
                       tt periodic_sites)))) 3
  = FNew (snd (DoCollisions unit no_extrema false 0 1 (mkParams (-1/2))
                 (fst (DoCollisions unit no_extrema false 1 1 (mkParams (-1/2))
                         tt periodic_sites))
                 (snd (DoCollisions unit no_extrema false 1 1 (mkParams (-1/2))
                         tt periodic_sites)))) 3.
Proof.
  apply (passes_commute unit no_extrema false 0 1 1 1 (mkParams (-1/2)) tt
                        periodic_sites 3).
  intros s1 s2 i Hs1 Hs2. assert (s1 = 0%nat) as -> by lia.
  assert (s2 = 1%nat) as -> by lia.
  vm_compute. intros H1 H2.
  repeat (destruct H1 as [<- | H1];
          [repeat (destruct H2 as [H2 | H2]; [discriminate H2 |]); exact H2 |]).
  exact H1.
Defined.
End PassFacts.

(* ================================================================== *)
(** * Further properties of the colloid boundary conditions *)
(* ================================================================== *)

Module BoundaryConditionsFacts.
Import BoundaryConditions ColloidExamples.
Local Open Scope R_scope.

Section Conditions.
Variable Particle : Type.
Variable GetGlobalPosition : Particle -> LatticePosition.

Lemma wall_vector_step_length (latticeInfo : LatticeInfo)
    (siteWallDistances : nat -> R) (siteGlobalPosition : Vector3D Z)
    (particle : Particle) (directions : list nat)
    (particleToWallVectors : list LatticePosition) :
  length (fold_left (wall_vector_step Particle GetGlobalPosition latticeInfo
                       siteWallDistances siteGlobalPosition particle)
                    directions particleToWallVectors)
  = (length particleToWallVectors
     + length (filter (fun direction =>
                         if Rlt_dec (siteWallDistances (direction - 1)%nat) 0
                         then false else true)
                      directions))%nat.
Proof.
  revert particleToWallVectors.
  induction directions as [| d ds IH]; intros acc; cbn [fold_left filter].
  - cbn. lia.
  - rewrite IH. unfold wall_vector_step, wall_distance.
    replace 0.0 with 0 by lra.
    destruct (Rlt_dec (siteWallDistances (d - 1)%nat) 0).
    + reflexivity.
    + rewrite length_app. cbn [length]. lia.
Qed.

(** X13.  The vectors handed to the boundary conditions: one for each of
    the face directions 1 to 6 whose wall distance is not negative, so
    at most six, and none when all six distances are negative. *)
Theorem wall_vectors_count (latticeInfo : LatticeInfo)
    (siteWallDistances : nat -> R) (siteGlobalPosition : Vector3D Z)
    (particle : Particle) :
  let particleToWallVectors :=
    fold_left (wall_vector_step Particle GetGlobalPosition latticeInfo
                 siteWallDistances siteGlobalPosition particle)
              (seq 1 6) [] in
  length particleToWallVectors
  = length (filter (fun direction =>
                      if Rlt_dec (siteWallDistances (direction - 1)%nat) 0
                      then false else true)
                   (seq 1 6))
  /\ (length particleToWallVectors <= 6)%nat.
Proof.
  cbv zeta. rewrite wall_vector_step_length. cbn [length plus]. split.
  - reflexivity.
  - apply (Nat.le_trans _ (length (seq 1 6))).
    + apply filter_length_le.
    + cbn. lia.
Qed.

Lemma apply_conditions_rejected (conditions : list (BoundaryCondition Particle))
    (particleToWallVectors : list LatticePosition)
    (keep : bool) (particle : Particle) :
  apply_conditions Particle conditions particleToWallVectors (keep, particle)
  = (keep && fst (apply_conditions Particle conditions particleToWallVectors
                                   (true, particle)),
     snd (apply_conditions Particle conditions particleToWallVectors
                           (true, particle))).
Proof.
  unfold apply_conditions. revert keep particle.
  induction conditions as [| bc bcs IH]; intros keep particle;
    cbn [fold_left].
  - cbn [fst snd]. rewrite andb_true_r. reflexivity.
  - destruct (bc particle particleToWallVectors) as [verdict particle'].
    rewrite (IH (keep && verdict) particle'), (IH (true && verdict) particle').
    cbn [fst snd andb]. rewrite andb_assoc. reflexivity.
Qed.

(** X14.  A list of conditions is applied to the end: a particle that
    comes rejected stays rejected, and it is still handed to every
    condition, each receiving the particle the previous one left. *)
Theorem conditions_are_all_applied
    (conditions : list (BoundaryCondition Particle))
    (particleToWallVectors : list LatticePosition) (particle : Particle) :
  fst (apply_conditions Particle conditions particleToWallVectors
                        (false, particle)) = false
  /\ snd (apply_conditions Particle conditions particleToWallVectors
                           (false, particle))
     = snd (apply_conditions Particle conditions particleToWallVectors
                             (true, particle))
  /\ forall (first : BoundaryCondition Particle),
       apply_conditions Particle (first :: conditions) particleToWallVectors
                        (true, particle)
       = (fst (first particle particleToWallVectors)
          && fst (apply_conditions Particle conditions particleToWallVectors
                    (true, snd (first particle particleToWallVectors))),
          snd (apply_conditions Particle conditions particleToWallVectors
                 (true, snd (first particle particleToWallVectors)))).
Proof.
  split; [| split].
  - rewrite apply_conditions_rejected. reflexivity.
  - rewrite apply_conditions_rejected. reflexivity.
  - intros first. unfold apply_conditions at 1. cbn [fold_left].
    destruct (first particle particleToWallVectors) as [verdict particle'].
    cbn [fst snd andb].
    apply (apply_conditions_rejected conditions particleToWallVectors
                                     verdict particle').
Qed.
End Conditions.
End BoundaryConditionsFacts.

Module BoundaryConditionsInitFacts.
Import BoundaryConditions BoundaryConditionsInit.
Import String.
Local Open Scope string_scope.

Section Registration.
Variable Particle : Type.
Variable Element : Type.
Variable CreateLubrication : Element -> BoundaryCondition Particle.
Variable CreateDeletion : Element -> BoundaryCondition Particle.

Lemma register_children (createFunction : Element -> BoundaryCondition Particle)
    (children : list (string * Element)) (reg : Registry Particle) :
  let reg' :=
    fold_left
      (fun reg (child : string * Element) =>
         let (appliesTo, element) := child in
         register Particle appliesTo (createFunction element) reg)
      children reg in
  boundaryConditionsWall Particle reg'
  = (boundaryConditionsWall Particle reg
     ++ map createFunction (applying_to Element "wall" children))%list
  /\ boundaryConditionsInlet Particle reg'
     = (boundaryConditionsInlet Particle reg
        ++ map createFunction (applying_to Element "inlet" children))%list
  /\ boundaryConditionsOutlet Particle reg'
     = (boundaryConditionsOutlet Particle reg
        ++ map createFunction (applying_to Element "outlet" children))%list
  /\ latticeData Particle reg' = latticeData Particle reg.
Proof.
  cbv zeta. revert reg.
  induction children as [| [appliesTo element] children IH]; intros reg.
  - cbn. rewrite !app_nil_r. auto.
  - cbn [fold_left].
    destruct (IH (register Particle appliesTo (createFunction element) reg))
      as [Hw [Hi [Ho Hl]]].
    rewrite Hw, Hi, Ho, Hl. unfold applying_to, register.
    cbn [filter fst].
    destruct (String.eqb_spec appliesTo "wall") as [-> | Hnw].
    + cbn [String.eqb Ascii.eqb Bool.eqb map snd boundaryConditionsWall
           boundaryConditionsInlet boundaryConditionsOutlet latticeData].
      rewrite <- app_assoc. auto.
    + destruct (String.eqb_spec appliesTo "inlet") as [-> | Hni].
      * cbn [String.eqb Ascii.eqb Bool.eqb map snd boundaryConditionsWall
             boundaryConditionsInlet boundaryConditionsOutlet latticeData].
        rewrite <- app_assoc. auto.
      * destruct (String.eqb_spec appliesTo "outlet") as [-> | Hno].
        -- cbn [String.eqb Ascii.eqb Bool.eqb map snd boundaryConditionsWall
                boundaryConditionsInlet boundaryConditionsOutlet latticeData].
           rewrite <- app_assoc. auto.
        -- auto.
Qed.

(** X15.  After [InitBoundaryConditions] on a document that has the
    section [colloids/boundaryConditions], each of the three lists holds
    what it held before, followed by the conditions created from the
    [DeletionBC] elements that apply to it, followed by those created
    from its [LubricationBC] elements, each group in the order of the
    document; elements that apply to anything but [wall], [inlet] and
    [outlet] are registered nowhere.  On a document without the section
    the three lists are unchanged.  In both cases the lattice data are
    the ones passed. *)
Theorem registration_order (ld : LatticeData)
    (xml : Document Element) (reg : Registry Particle) :
  let reg' :=
    InitBoundaryConditions Particle Element CreateLubrication CreateDeletion
                           ld xml reg in
  let created (target : string) : list (BoundaryCondition Particle) :=
    match xml with
    | None => []
    | Some children =>
        (map CreateDeletion (applying_to Element target (children "DeletionBC"))
         ++ map CreateLubrication
              (applying_to Element target (children "LubricationBC")))%list
    end in
  boundaryConditionsWall Particle reg'
  = (boundaryConditionsWall Particle reg ++ created "wall")%list
  /\ boundaryConditionsInlet Particle reg'
     = (boundaryConditionsInlet Particle reg ++ created "inlet")%list
  /\ boundaryConditionsOutlet Particle reg'
     = (boundaryConditionsOutlet Particle reg ++ created "outlet")%list
  /\ latticeData Particle reg' = ld.
Proof.
  cbv zeta. unfold InitBoundaryConditions. destruct xml as [children |].
  - unfold mapBCGenerators. cbn [fold_left]. unfold register_class.
    match goal with
    | |- context [fold_left ?f (children "LubricationBC") ?r] =>
        destruct (register_children CreateLubrication
                    (children "LubricationBC") r) as [Hw [Hi [Ho Hl]]]
    end.
    cbv zeta in Hw, Hi, Ho, Hl. rewrite Hw, Hi, Ho, Hl.
    match goal with
    | |- context [fold_left ?f (children "DeletionBC") ?r] =>
        destruct (register_children CreateDeletion
                    (children "DeletionBC") r) as [Hw' [Hi' [Ho' Hl']]]
    end.
    cbv zeta in Hw', Hi', Ho', Hl'. rewrite Hw', Hi', Ho', Hl'.
    cbn [boundaryConditionsWall boundaryConditionsInlet
         boundaryConditionsOutlet latticeData].
    rewrite <- !app_assoc. auto.
  - cbn [boundaryConditionsWall boundaryConditionsInlet
         boundaryConditionsOutlet latticeData].
    rewrite !app_nil_r. auto.
Qed.
End Registration.
End BoundaryConditionsInitFacts.

(* ================================================================== *)
(** * Properties of the exchanges and plans of lb/io.cc *)
(* ================================================================== *)

Module SnapshotFacts.
Import Snapshot.
Local Open Scope Z_scope.

(** [ceil] of a quotient of integers. *)
Lemma ceil_quotient (a b q : Z) :
  0 < b -> b * (q - 1) < a <= b * q -> ceil (IZR a / IZR b) = q.
Proof.
  intros Hb [Hlo Hhi]. unfold ceil.
  assert (HbR : (0 < IZR b)%R) by (apply IZR_lt; exact Hb).
  assert (Hx : (IZR a / IZR b * IZR b = IZR a)%R) by (field; lra).
  assert (HloR : (IZR b * (IZR q - 1) < IZR a)%R).
  { rewrite <- minus_IZR, <- mult_IZR. apply IZR_lt. exact Hlo. }
  assert (HhiR : (IZR a <= IZR b * IZR q)%R).
  { rewrite <- mult_IZR. apply IZR_le. exact Hhi. }
  rewrite <- (Int_part_spec (- (IZR a / IZR b)) (- q)); [lia |].
  rewrite opp_IZR. set (x := (IZR a / IZR b)%R) in *.
  split; nra.
Qed.

Lemma ceil_division (a b : Z) :
  0 < b -> ceil (IZR a / IZR b) = (a + b - 1) / b.
Proof.
  intros Hb. apply ceil_quotient; [exact Hb |].
  pose proof (Z.div_mod (a + b - 1) b ltac:(lia)) as Hdm.
  pose proof (Z.mod_pos_bound (a + b - 1) b Hb) as Hm.
  nia.
Qed.

(** X16.  The gather plan of [WriteConfig], for at least one processor
    and at least one fluid site on the fullest processor, with a product
    of the two that fits an [int]: the period is at least one, the
    rounds planned are at least one and together at least as long as
    the largest number of sites of a processor, so every site of every
    processor finds a place in a round, and the gathered buffer is at
    least [buffer_size] long. *)
Theorem gather_plan_covers_all_sites (sites_max processors : Z) :
  1 <= processors -> 1 <= sites_max -> sites_max * processors < 2 ^ 31 ->
  1 <= communication_period sites_max processors
  /\ 1 <= communication_iters sites_max processors
  /\ sites_max
     <= communication_period sites_max processors
        * communication_iters sites_max processors
  /\ buffer_size sites_max processors
     <= communication_period sites_max processors * processors.
Proof.
  intros HP HS Hfit.
  assert (Hbuf : 1 <= buffer_size sites_max processors).
  { unfold buffer_size. apply Z.min_glb; nia. }
  assert (Hper : communication_period sites_max processors
                 = (buffer_size sites_max processors + processors - 1)
                   / processors).
  { unfold communication_period. apply ceil_division. lia. }
  set (b := buffer_size sites_max processors) in *.
  set (p := communication_period sites_max processors) in *.
  pose proof (Z.div_mod (b + processors - 1) processors ltac:(lia)) as Hdm.
  pose proof (Z.mod_pos_bound (b + processors - 1) processors ltac:(lia)) as Hm.
  assert (Hp1 : 1 <= p) by nia.
  assert (Hit : communication_iters sites_max processors
                = Z.max 1 ((sites_max + p - 1) / p)).
  { unfold communication_iters. fold p. rewrite ceil_division by lia.
    reflexivity. }
  rewrite Hit.
  pose proof (Z.div_mod (sites_max + p - 1) p ltac:(lia)) as Hdm'.
  pose proof (Z.mod_pos_bound (sites_max + p - 1) p ltac:(lia)) as Hm'.
  repeat split; try lia; nia.
Qed.

Lemma gather_plan_covers_all_sites_witness :
  1 <= communication_period 1000 4
  /\ 1 <= communication_iters 1000 4
  /\ 1000 <= communication_period 1000 4 * communication_iters 1000 4
  /\ buffer_size 1000 4 <= communication_period 1000 4 * 4.
Proof.
  apply gather_plan_covers_all_sites; lia.
Defined.

Lemma scan_counters (communication_period : Z) (sites : nat) :
  1 <= communication_period ->
  scan communication_period sites
  = mkCounters (Z.of_nat sites mod communication_period)
               (Z.of_nat sites / communication_period)
               (Z.of_nat sites / communication_period).
Proof.
  intros Hp. unfold scan. induction sites as [| n IH].
  - change (Nat.iter 0 (site_stored communication_period) (mkCounters 0 0 0))
      with (mkCounters 0 0 0).
    cbn [Z.of_nat]. rewrite Z.mod_0_l, Z.div_0_l by lia. reflexivity.
  - rewrite Nat.iter_succ, IH. unfold site_stored.
    cbn [comPeriodDelta iters rounds].
    pose proof (Z.div_mod (Z.of_nat n) communication_period ltac:(lia)) as Hdm.
    pose proof (Z.mod_pos_bound (Z.of_nat n) communication_period ltac:(lia))
      as Hm.
    rewrite Nat2Z.inj_succ.
    destruct (Z.eqb_spec (Z.of_nat n mod communication_period + 1)
                         communication_period) as [Hfull | Hroom];
      cbn [negb].
    + assert (Hq : Z.succ (Z.of_nat n) / communication_period
                   = Z.of_nat n / communication_period + 1).
      { symmetry. apply (Z.div_unique _ _ _ 0); lia. }
      assert (Hr : Z.succ (Z.of_nat n) mod communication_period = 0).
      { symmetry.
        apply (Z.mod_unique _ _ (Z.of_nat n / communication_period + 1)); lia. }
      rewrite Hq, Hr. reflexivity.
    + assert (Hq : Z.succ (Z.of_nat n) / communication_period
                   = Z.of_nat n / communication_period).
      { symmetry.
        apply (Z.div_unique _ _ _ (Z.of_nat n mod communication_period + 1));
          lia. }
      assert (Hr : Z.succ (Z.of_nat n) mod communication_period
                   = Z.of_nat n mod communication_period + 1).
      { symmetry.
        apply (Z.mod_unique _ _ (Z.of_nat n / communication_period)); lia. }
      rewrite Hq, Hr. reflexivity.
Qed.

Lemma gather_rounds_run (communication_iters : Z) (fuel : nat) (c : counters) :
  (Z.to_nat (communication_iters + 1 - iters c) <= fuel)%nat ->
  gather_rounds fuel communication_iters c
  = mkCounters (comPeriodDelta c)
               (iters c + Z.of_nat (Z.to_nat (communication_iters + 1 - iters c)))
               (rounds c + Z.of_nat (Z.to_nat (communication_iters + 1 - iters c))).
Proof.
  revert c. induction fuel as [| fuel IH]; intros c Hfuel.
  - replace (Z.to_nat (communication_iters + 1 - iters c)) with 0%nat by lia.
    destruct c. cbn. f_equal; lia.
  - cbn [gather_rounds].
    destruct (Z.leb_spec (iters c) communication_iters) as [Hgo | Hstop].
    + rewrite IH by (cbn [iters]; lia). cbn [comPeriodDelta iters rounds].
      f_equal; lia.
    + replace (Z.to_nat (communication_iters + 1 - iters c)) with 0%nat by lia.
      destruct c. cbn. f_equal; lia.
Qed.

(** X17.  In [WriteConfig], a process that stores [sites] sites, with
    [sites] at most the period times the planned number of rounds,
    performs exactly the planned number of gather rounds, whatever
    [sites] is, and ends with [iters] at or above the planned number;
    and when its last buffer is only partly filled, at least one round
    follows the scan, so the buffer is sent. *)
Theorem every_process_gathers_as_planned
    (communication_period communication_iters : Z) (sites : nat) :
  1 <= communication_period ->
  Z.of_nat sites <= communication_period * communication_iters ->
  let scanned := scan communication_period sites in
  rounds (flush communication_iters scanned) = communication_iters
  /\ communication_iters <= iters (flush communication_iters scanned)
  /\ (comPeriodDelta scanned <> 0 ->
      rounds scanned < rounds (flush communication_iters scanned)).
Proof.
  intros Hp Hfit. cbv zeta. rewrite scan_counters by exact Hp.
  unfold flush. cbn [comPeriodDelta iters rounds].
  pose proof (Z.div_mod (Z.of_nat sites) communication_period ltac:(lia))
    as Hdm.
  pose proof (Z.mod_pos_bound (Z.of_nat sites) communication_period
                              ltac:(lia)) as Hm.
  assert (Hle : Z.of_nat sites / communication_period <= communication_iters)
    by nia.
  destruct (Z.eqb_spec (Z.of_nat sites / communication_period)
                       communication_iters) as [Heq | Hne];
    cbn [negb rounds iters].
  - split; [exact Heq | split; [lia |]]. intros Hpart. exfalso. nia.
  - rewrite gather_rounds_run by (cbn [iters]; lia).
    cbn [comPeriodDelta iters rounds].
    rewrite Z2Nat.id by lia. repeat split; lia.
Qed.

Lemma every_process_gathers_as_planned_witness :
  rounds (flush 4 (scan 250 730)) = 4
  /\ 4 <= iters (flush 4 (scan 250 730))
  /\ (comPeriodDelta (scan 250 730) <> 0 ->
      rounds (scan 250 730) < rounds (flush 4 (scan 250 730))).
Proof.
  apply (every_process_gathers_as_planned 250 4 730); lia.
Defined.

(** Under the model of the moment calculator above, the velocity that
    [WriteConfig] hands on is the first moment divided by the density
    twice. *)
Remark snapshot_velocity_divides_again (f : list R) :
  LBM.snapshot_velocity f
  = ((D3Q15.moment D3Q15.CX f / D3Q15.Rsum f / D3Q15.Rsum f)%R,
     (D3Q15.moment D3Q15.CY f / D3Q15.Rsum f / D3Q15.Rsum f)%R,
     (D3Q15.moment D3Q15.CZ f / D3Q15.Rsum f / D3Q15.Rsum f)%R).
Proof. reflexivity. Qed.

Lemma wrap_int_fits (z : Z) : - 2 ^ 31 <= z < 2 ^ 31 -> wrap_int z = z.
Proof. intros Hz. unfold wrap_int. rewrite Z.mod_small; lia. Qed.

Lemma sites_below_step (FluidSitesOnEachProcessor : nat -> Z) (rank : nat) :
  sites_below FluidSitesOnEachProcessor (S rank)
  = sites_below FluidSitesOnEachProcessor rank
    + FluidSitesOnEachProcessor rank.
Proof.
  unfold sites_below. rewrite seq_S, map_app, fold_right_app.
  cbn [map fold_right Nat.add].
  induction (map FluidSitesOnEachProcessor (seq 0 rank)) as [| a l IH];
    cbn [fold_right]; lia.
Qed.

Lemma sites_below_monotone (FluidSitesOnEachProcessor : nat -> Z) (r n : nat) :
  (forall ii, 0 <= FluidSitesOnEachProcessor ii) ->
  0 <= sites_below FluidSitesOnEachProcessor r
    <= sites_below FluidSitesOnEachProcessor (r + n).
Proof.
  intros Hpos. split.
  - induction r as [| r IH]; [cbn; lia |].
    rewrite sites_below_step. pose proof (Hpos r). lia.
  - induction n as [| n IH].
    + rewrite Nat.add_0_r. lia.
    + rewrite Nat.add_succ_r, sites_below_step.
      pose proof (Hpos (r + n)%nat). lia.
Qed.

(** While the file is shorter than [2^31] bytes no [int] overflows: the
    offset of a rank is the preamble and the sites of the ranks below
    it, and its length that of its own sites. *)
Lemma offset_fits (FluidSitesOnEachProcessor : nat -> Z)
    (GetProcessorCount rank : nat) :
  (forall ii, 0 <= FluidSitesOnEachProcessor ii) ->
  file_length FluidSitesOnEachProcessor GetProcessorCount < 2 ^ 31 ->
  (rank <= GetProcessorCount)%nat ->
  lLocalSitesInitialOffset FluidSitesOnEachProcessor rank
  = lPreambleLength
    + lOneFluidSiteLength * sites_below FluidSitesOnEachProcessor rank.
Proof.
  intros Hpos Hfit. unfold file_length in Hfit.
  induction rank as [| rank IH]; intros Hrank.
  - cbn. reflexivity.
  - unfold lLocalSitesInitialOffset in *.
    rewrite seq_S, fold_left_app. cbn [fold_left Nat.add].
    rewrite IH by lia. rewrite sites_below_step.
    pose proof (Hpos rank) as Hr.
    pose proof (sites_below_monotone FluidSitesOnEachProcessor rank 0 Hpos)
      as [Hlow _].
    pose proof (sites_below_monotone FluidSitesOnEachProcessor (S rank)
                  (GetProcessorCount - S rank) Hpos) as [_ Hup].
    replace (S rank + (GetProcessorCount - S rank))%nat
      with GetProcessorCount in Hup by lia.
    rewrite sites_below_step in Hup.
    unfold lPreambleLength, lOneFluidSiteLength in *.
    rewrite (wrap_int_fits (_ * _)) by lia.
    rewrite wrap_int_fits by lia. lia.
Qed.

Lemma length_fits (FluidSitesOnEachProcessor : nat -> Z)
    (GetProcessorCount rank : nat) :
  (forall ii, 0 <= FluidSitesOnEachProcessor ii) ->
  file_length FluidSitesOnEachProcessor GetProcessorCount < 2 ^ 31 ->
  (rank < GetProcessorCount)%nat ->
  lLocalWriteLength FluidSitesOnEachProcessor rank
  = lOneFluidSiteLength * FluidSitesOnEachProcessor rank.
Proof.
  intros Hpos Hfit Hrank. unfold file_length in Hfit.
  pose proof (Hpos rank) as Hr.
  pose proof (sites_below_monotone FluidSitesOnEachProcessor rank 0 Hpos)
    as [Hlow _].
  pose proof (sites_below_monotone FluidSitesOnEachProcessor (S rank)
                (GetProcessorCount - S rank) Hpos) as [_ Hup].
  replace (S rank + (GetProcessorCount - S rank))%nat
    with GetProcessorCount in Hup by lia.
  rewrite sites_below_step in Hup.
  unfold lLocalWriteLength.
  unfold lPreambleLength, lOneFluidSiteLength in *.
  apply wrap_int_fits. lia.
Qed.

(** X18.  In [WriteConfigParallel], with site counts that are not
    negative and a file (preamble and the sites of all processors) of
    less than [2^31] bytes, so that the [int] offsets do not overflow:
    the part of the file of rank 0 starts right after the preamble of
    52 bytes, the part of each rank starts where the part of the rank
    before ends, no part is of negative length, and the parts of two
    different ranks do not overlap. *)
Theorem file_parts_are_disjoint (FluidSitesOnEachProcessor : nat -> Z)
    (GetProcessorCount r r' : nat) :
  (forall ii, 0 <= FluidSitesOnEachProcessor ii) ->
  file_length FluidSitesOnEachProcessor GetProcessorCount < 2 ^ 31 ->
  (r < r' < GetProcessorCount)%nat ->
  lLocalSitesInitialOffset FluidSitesOnEachProcessor 0 = 52
  /\ lLocalSitesInitialOffset FluidSitesOnEachProcessor (S r)
     = lLocalSitesInitialOffset FluidSitesOnEachProcessor r
       + lLocalWriteLength FluidSitesOnEachProcessor r
  /\ 0 <= lLocalWriteLength FluidSitesOnEachProcessor r
  /\ lLocalSitesInitialOffset FluidSitesOnEachProcessor r
     + lLocalWriteLength FluidSitesOnEachProcessor r
     <= lLocalSitesInitialOffset FluidSitesOnEachProcessor r'.
Proof.
  intros Hpos Hfit Hlt.
  rewrite !(offset_fits FluidSitesOnEachProcessor GetProcessorCount)
    by (assumption || lia).
  rewrite (length_fits FluidSitesOnEachProcessor GetProcessorCount)
    by (assumption || lia).
  rewrite sites_below_step.
  pose proof (Hpos r) as Hr.
  pose proof (sites_below_monotone FluidSitesOnEachProcessor (S r)
                (r' - S r) Hpos) as [_ Hup].
  replace (S r + (r' - S r))%nat with r' in Hup by lia.
  rewrite sites_below_step in Hup.
  unfold lPreambleLength, lOneFluidSiteLength.
  repeat split; try lia.
Qed.

Lemma file_parts_are_disjoint_witness :
  lLocalSitesInitialOffset (fun ii => Z.of_nat (10 * ii)) 0 = 52
  /\ lLocalSitesInitialOffset (fun ii => Z.of_nat (10 * ii)) 2
     = lLocalSitesInitialOffset (fun ii => Z.of_nat (10 * ii)) 1
       + lLocalWriteLength (fun ii => Z.of_nat (10 * ii)) 1
  /\ 0 <= lLocalWriteLength (fun ii => Z.of_nat (10 * ii)) 1
  /\ lLocalSitesInitialOffset (fun ii => Z.of_nat (10 * ii)) 1
     + lLocalWriteLength (fun ii => Z.of_nat (10 * ii)) 1
     <= lLocalSitesInitialOffset (fun ii => Z.of_nat (10 * ii)) 3.
Proof.
  apply (file_parts_are_disjoint (fun ii => Z.of_nat (10 * ii)) 4 1 3).
  - lia.
  - vm_compute. reflexivity.
  - lia.
Defined.

(** The bound on the length of the file is needed: with [2^26] sites on
    rank 0 the product of line 886 is [2^31], which an [int] does not
    hold, and the part of rank 1 would start before the file does. *)
Remark offset_overflows :
  lLocalSitesInitialOffset (fun _ => 2 ^ 26) 1 = 52 - 2 ^ 31.
Proof. reflexivity. Qed.
End SnapshotFacts.

Module ReadParametersFacts.
Import ImplGuoZhengShi ImplGuoZhengShiFacts ReadParameters.
Local Open Scope R_scope.

Lemma int_of_count (n : Z) : (0 <= n)%Z -> int_of (0.1 + IZR n) = n.
Proof.
  intros Hn. unfold int_of.
  assert (0 <= IZR n) by (apply IZR_le; exact Hn).
  destruct (Rle_dec 0 (0.1 + IZR n)) as [_ | Hneg]; [| exfalso; lra].
  symmetry. apply Int_part_spec. lra.
Qed.

Lemma put3_at (base : nat) (a b c par : nat -> R) (n i : nat) :
  put3 base a b c par n i
  = if (i =? base + 3 * n + 2)%nat then c n
    else if (i =? base + 3 * n + 1)%nat then b n
    else if (i =? base + 3 * n + 0)%nat then a n
    else par i.
Proof. reflexivity. Qed.

Lemma put3_loop_outside (base : nat) (a b c : nat -> R) (count : nat)
    (par : nat -> R) (i : nat) :
  (i < base \/ base + 3 * count <= i)%nat ->
  fold_left (put3 base a b c) (seq 0 count) par i = par i.
Proof.
  intros Hi. induction count as [| count IH].
  - reflexivity.
  - rewrite seq_S, fold_left_app. cbn [fold_left plus]. rewrite put3_at.
    repeat match goal with
           | |- context [(?x =? ?y)%nat] =>
               destruct (Nat.eqb_spec x y); [exfalso; lia |]
           end.
    apply IH. lia.
Qed.

Lemma put3_loop_inside (base : nat) (a b c : nat -> R) (count : nat)
    (par : nat -> R) (n : nat) :
  (n < count)%nat ->
  fold_left (put3 base a b c) (seq 0 count) par (base + 3 * n + 0)%nat = a n
  /\ fold_left (put3 base a b c) (seq 0 count) par (base + 3 * n + 1)%nat = b n
  /\ fold_left (put3 base a b c) (seq 0 count) par (base + 3 * n + 2)%nat = c n.
Proof.
  intros Hn. induction count as [| count IH]; [lia |].
  rewrite seq_S, fold_left_app. cbn [fold_left plus]. rewrite !put3_at.
  destruct (Nat.eq_dec n count) as [-> | Hne].
  - rewrite !Nat.eqb_refl.
    repeat match goal with
           | |- context [(?x =? ?y)%nat] =>
               destruct (Nat.eqb_spec x y); [exfalso; lia |]
           end.
    auto.
  - destruct IH as [Ha [Hb Hc]]; [lia |].
    repeat match goal with
           | |- context [(?x =? ?y)%nat] =>
               destruct (Nat.eqb_spec x y); [exfalso; lia |]
           end.
    auto.
Qed.

(** What the three loops of [unpack] leave. *)
Lemma take_inlet_loop (par : nat -> R) (count : nat) (me : lets) :
  let got := fold_left (take_inlet par) (seq 0 count) me in
  inlets got = inlets me /\ outlets got = outlets me
  /\ is_inlet_normal_available got = is_inlet_normal_available me
  /\ outlet_density_avg got = outlet_density_avg me
  /\ outlet_density_amp got = outlet_density_amp me
  /\ outlet_density_phs got = outlet_density_phs me
  /\ inlet_normal got = inlet_normal me
  /\ forall n, (n < count)%nat ->
       inlet_density_avg got n = par (3 * n + 0)%nat
       /\ inlet_density_amp got n = par (3 * n + 1)%nat
       /\ inlet_density_phs got n = par (3 * n + 2)%nat.
Proof.
  cbv zeta. induction count as [| count IH].
  - cbn [seq fold_left]. repeat split; lia.
  - rewrite seq_S, fold_left_app. cbn [fold_left plus].
    destruct IH as [H1 [H2 [H3 [H4 [H5 [H6 [H7 H8]]]]]]].
    set (prev := fold_left (take_inlet par) (seq 0 count) me) in *.
    unfold take_inlet.
    cbn [inlets outlets is_inlet_normal_available inlet_density_avg
         inlet_density_amp inlet_density_phs outlet_density_avg
         outlet_density_amp outlet_density_phs inlet_normal].
    repeat (split; [assumption |]).
    intros n Hn. destruct (Nat.eq_dec n count) as [-> | Hne].
    + rewrite !store_same. auto.
    + rewrite !store_other by exact Hne. apply H8. lia.
Qed.

Lemma take_outlet_loop (par : nat -> R) (count : nat) (me : lets) :
  let got := fold_left (take_outlet par) (seq 0 count) me in
  inlets got = inlets me /\ outlets got = outlets me
  /\ is_inlet_normal_available got = is_inlet_normal_available me
  /\ inlet_density_avg got = inlet_density_avg me
  /\ inlet_density_amp got = inlet_density_amp me
  /\ inlet_density_phs got = inlet_density_phs me
  /\ inlet_normal got = inlet_normal me
  /\ forall n, (n < count)%nat ->
       outlet_density_avg got n
       = par (3 * Z.to_nat (inlets me) + 3 * n + 0)%nat
       /\ outlet_density_amp got n
          = par (3 * Z.to_nat (inlets me) + 3 * n + 1)%nat
       /\ outlet_density_phs got n
          = par (3 * Z.to_nat (inlets me) + 3 * n + 2)%nat.
Proof.
  cbv zeta. induction count as [| count IH].
  - cbn [seq fold_left]. repeat split; lia.
  - rewrite seq_S, fold_left_app. cbn [fold_left plus].
    destruct IH as [H1 [H2 [H3 [H4 [H5 [H6 [H7 H8]]]]]]].
    set (prev := fold_left (take_outlet par) (seq 0 count) me) in *.
    unfold take_outlet.
    cbn [inlets outlets is_inlet_normal_available inlet_density_avg
         inlet_density_amp inlet_density_phs outlet_density_avg
         outlet_density_amp outlet_density_phs inlet_normal].
    repeat (split; [assumption |]).
    intros n Hn. rewrite H1. destruct (Nat.eq_dec n count) as [-> | Hne].
    + rewrite !store_same. auto.
    + rewrite !store_other by exact Hne. apply H8. lia.
Qed.

Lemma take_normal_loop (par : nat -> R) (count : nat) (me : lets) :
  let got := fold_left (take_normal par) (seq 0 count) me in
  let base := (3 * (Z.to_nat (inlets me) + Z.to_nat (outlets me)))%nat in
  inlets got = inlets me /\ outlets got = outlets me
  /\ is_inlet_normal_available got = is_inlet_normal_available me
  /\ inlet_density_avg got = inlet_density_avg me
  /\ inlet_density_amp got = inlet_density_amp me
  /\ inlet_density_phs got = inlet_density_phs me
  /\ outlet_density_avg got = outlet_density_avg me
  /\ outlet_density_amp got = outlet_density_amp me
  /\ outlet_density_phs got = outlet_density_phs me
  /\ forall n k, (n < count)%nat -> (k < 3)%nat ->
       inlet_normal got (3 * n + k)%nat = par (base + 3 * n + k)%nat.
Proof.
  cbv zeta. induction count as [| count IH].
  - cbn [seq fold_left]. repeat split; lia.
  - rewrite seq_S, fold_left_app. cbn [fold_left plus].
    destruct IH as [H1 [H2 [H3 [H4 [H5 [H6 [H7 [H8 [H9 H10]]]]]]]]].
    set (prev := fold_left (take_normal par) (seq 0 count) me) in *.
    unfold take_normal.
    cbn [inlets outlets is_inlet_normal_available inlet_density_avg
         inlet_density_amp inlet_density_phs outlet_density_avg
         outlet_density_amp outlet_density_phs inlet_normal].
    repeat (split; [assumption |]).
    intros n k Hn Hk. rewrite H1, H2. unfold store.
    repeat match goal with
           | |- context [(?x =? ?y)%nat] =>
               destruct (Nat.eqb_spec x y) as [? | ?];
                 [assert (n = count) as -> by lia;
                  assert (k = 0 \/ k = 1 \/ k = 2)%nat
                    as [-> | [-> | ->]] by lia;
                  try (exfalso; lia); reflexivity |]
           end.
    apply H10; lia.
Qed.

Lemma announced (io : lets) (par : nat -> R) :
  announce io par 0%nat = 0.1 + IZR (inlets io)
  /\ announce io par 1%nat = 0.1 + IZR (outlets io)
  /\ announce io par 2%nat = 0.1 + IZR (is_inlet_normal_available io).
Proof. repeat split. Qed.

(** What the buffer of the reading process holds after [pack]. *)
Lemma packed (io : lets) (par : nat -> R) :
  let inlets_ := Z.to_nat (inlets io) in
  let outlets_ := Z.to_nat (outlets io) in
  (forall n, (n < inlets_)%nat ->
     pack io par (3 * n + 0)%nat = inlet_density_avg io n
     /\ pack io par (3 * n + 1)%nat = inlet_density_amp io n
     /\ pack io par (3 * n + 2)%nat = inlet_density_phs io n)
  /\ (forall n, (n < outlets_)%nat ->
        pack io par (3 * inlets_ + 3 * n + 0)%nat = outlet_density_avg io n
        /\ pack io par (3 * inlets_ + 3 * n + 1)%nat = outlet_density_amp io n
        /\ pack io par (3 * inlets_ + 3 * n + 2)%nat = outlet_density_phs io n)
  /\ (is_inlet_normal_available io <> 0%Z ->
      forall n k, (n < inlets_)%nat -> (k < 3)%nat ->
        pack io par (3 * (inlets_ + outlets_) + 3 * n + k)%nat
        = inlet_normal io (3 * n + k)%nat).
Proof.
  intros inlets_ outlets_. unfold pack. fold inlets_. fold outlets_.
  set (par1 := fold_left (put3 0 (inlet_density_avg io) (inlet_density_amp io)
                               (inlet_density_phs io)) (seq 0 inlets_) par).
  set (par2 := fold_left (put3 (3 * inlets_) (outlet_density_avg io)
                               (outlet_density_amp io) (outlet_density_phs io))
                         (seq 0 outlets_) par1).
  assert (Hin : forall n, (n < inlets_)%nat ->
            par2 (3 * n + 0)%nat = inlet_density_avg io n
            /\ par2 (3 * n + 1)%nat = inlet_density_amp io n
            /\ par2 (3 * n + 2)%nat = inlet_density_phs io n).
  { intros n Hn. unfold par2. rewrite !put3_loop_outside by lia.
    apply (put3_loop_inside 0 _ _ _ inlets_ par n Hn). }
  assert (Hout : forall n, (n < outlets_)%nat ->
            par2 (3 * inlets_ + 3 * n + 0)%nat = outlet_density_avg io n
            /\ par2 (3 * inlets_ + 3 * n + 1)%nat = outlet_density_amp io n
            /\ par2 (3 * inlets_ + 3 * n + 2)%nat = outlet_density_phs io n).
  { intros n Hn. apply (put3_loop_inside (3 * inlets_) _ _ _ outlets_ par1 n Hn). }
  destruct (Z.eqb_spec (is_inlet_normal_available io) 0) as [Hnone | Hsome].
  - split; [exact Hin | split; [exact Hout |]]. intros H. contradiction.
  - split; [| split].
    + intros n Hn. rewrite !put3_loop_outside by lia. apply Hin, Hn.
    + intros n Hn. rewrite !put3_loop_outside by lia. apply Hout, Hn.
    + intros _ n k Hn Hk.
      destruct (put3_loop_inside (3 * (inlets_ + outlets_))
                  (fun n => inlet_normal io (3 * n + 0))
                  (fun n => inlet_normal io (3 * n + 1))
                  (fun n => inlet_normal io (3 * n + 2))
                  inlets_ par2 n Hn) as [H0 [H1 H2]].
      assert (k = 0 \/ k = 1 \/ k = 2)%nat as [-> | [-> | ->]] by lia;
        assumption.
Qed.

(** X19.  The exchange of the inlet and outlet parameters: for counts
    that are not negative and fit the buffer of 10000 entries, a
    process other than the reading one ends with the counts of the
    reading process (the added 0.1 survives the cut to an integer), with
    its density average, amplitude and phase for every inlet and every
    outlet, and, when the inlet normals are available, with its three
    normal components for every inlet, whatever the buffers and the
    members held before. *)
Theorem parameters_reach_every_process (io : lets)
    (par_io par_own : nat -> R) (me : lets) :
  (0 <= inlets io)%Z -> (0 <= outlets io)%Z ->
  (0 <= is_inlet_normal_available io)%Z ->
  (3 * (inlets io + outlets io + inlets io) <= 10000)%Z ->
  let got := exchange io par_io par_own me in
  inlets got = inlets io /\ outlets got = outlets io
  /\ is_inlet_normal_available got = is_inlet_normal_available io
  /\ (forall n, (Z.of_nat n < inlets io)%Z ->
        inlet_density_avg got n = inlet_density_avg io n
        /\ inlet_density_amp got n = inlet_density_amp io n
        /\ inlet_density_phs got n = inlet_density_phs io n)
  /\ (forall n, (Z.of_nat n < outlets io)%Z ->
        outlet_density_avg got n = outlet_density_avg io n
        /\ outlet_density_amp got n = outlet_density_amp io n
        /\ outlet_density_phs got n = outlet_density_phs io n)
  /\ (is_inlet_normal_available io <> 0%Z ->
      forall n k, (Z.of_nat n < inlets io)%Z -> (k < 3)%nat ->
        inlet_normal got (3 * n + k)%nat = inlet_normal io (3 * n + k)%nat).
Proof.
  intros HI HO HA Hfit. cbv zeta. unfold exchange.
  set (par_io1 := announce io par_io).
  set (par_own1 := MPI_Bcast 3 par_io1 par_own).
  set (me1 := receive_counts par_own1 me).
  assert (HcI : inlets me1 = inlets io).
  { unfold me1, receive_counts. cbn [inlets]. unfold par_own1, MPI_Bcast.
    cbn [Nat.ltb Nat.leb]. apply int_of_count, HI. }
  assert (HcO : outlets me1 = outlets io).
  { unfold me1, receive_counts. cbn [outlets]. unfold par_own1, MPI_Bcast.
    cbn [Nat.ltb Nat.leb]. apply int_of_count, HO. }
  assert (HcA : is_inlet_normal_available me1 = is_inlet_normal_available io).
  { unfold me1, receive_counts. cbn [is_inlet_normal_available].
    unfold par_own1, MPI_Bcast. cbn [Nat.ltb Nat.leb]. apply int_of_count, HA. }
  rewrite HcI, HcO.
  set (count := Z.to_nat (3 * (inlets io + outlets io + inlets io))).
  set (par2 := MPI_Bcast count (pack io par_io1) par_own1).
  assert (Hpar2 : forall i, (i < count)%nat -> par2 i = pack io par_io1 i).
  { intros i Hi. unfold par2, MPI_Bcast. apply Nat.ltb_lt in Hi.
    rewrite Hi. reflexivity. }
  destruct (packed io par_io1) as [Pin [Pout Pnormal]].
  unfold unpack.
  destruct (take_inlet_loop par2 (Z.to_nat (inlets me1)) me1)
    as [A1 [A2 [A3 [A4 [A5 [A6 [A7 A8]]]]]]].
  set (me2 := fold_left (take_inlet par2) (seq 0 (Z.to_nat (inlets me1))) me1)
    in *.
  destruct (take_outlet_loop par2 (Z.to_nat (outlets me2)) me2)
    as [B1 [B2 [B3 [B4 [B5 [B6 [B7 B8]]]]]]].
  set (me3 := fold_left (take_outlet par2) (seq 0 (Z.to_nat (outlets me2))) me2)
    in *.
  assert (Hinlet : forall n, (Z.of_nat n < inlets io)%Z ->
            inlet_density_avg me3 n = inlet_density_avg io n
            /\ inlet_density_amp me3 n = inlet_density_amp io n
            /\ inlet_density_phs me3 n = inlet_density_phs io n).
  { intros n Hn. rewrite B4, B5, B6.
    destruct (A8 n) as [Ha [Hb Hc]]; [rewrite HcI; lia |].
    rewrite Ha, Hb, Hc, !Hpar2 by (unfold count; lia).
    apply Pin. lia. }
  assert (Houtlet : forall n, (Z.of_nat n < outlets io)%Z ->
            outlet_density_avg me3 n = outlet_density_avg io n
            /\ outlet_density_amp me3 n = outlet_density_amp io n
            /\ outlet_density_phs me3 n = outlet_density_phs io n).
  { intros n Hn.
    destruct (B8 n) as [Ha [Hb Hc]]; [rewrite A2, HcO; lia |].
    rewrite Ha, Hb, Hc, A1, HcI, !Hpar2 by (unfold count; lia).
    apply Pout. lia. }
  rewrite B3, A3, HcA.
  destruct (Z.eqb_spec (is_inlet_normal_available io) 0) as [Hnone | Hsome].
  - rewrite B1, B2, B3, A1, A2, A3, HcI, HcO, HcA.
    repeat (split; [first [reflexivity | assumption] |]).
    intros H. contradiction.
  - destruct (take_normal_loop par2 (Z.to_nat (inlets me3)) me3)
      as [C1 [C2 [C3 [C4 [C5 [C6 [C7 [C8 [C9 C10]]]]]]]]].
    set (me4 := fold_left (take_normal par2) (seq 0 (Z.to_nat (inlets me3))) me3)
      in *.
    rewrite C1, C2, C3, C4, C5, C6, C7, C8, C9.
    rewrite B1, B2, B3, A1, A2, A3, HcI, HcO, HcA.
    repeat (split; [first [reflexivity | assumption] |]).
    intros _ n k Hn Hk.
    rewrite C10 by (rewrite ?B1, ?A1, ?HcI; lia).
    rewrite B1, B2, A1, A2, HcI, HcO.
    rewrite Hpar2 by (unfold count; lia).
    apply Pnormal; [exact Hsome | lia | exact Hk].
Qed.

Lemma parameters_reach_every_process_witness :
  let got := exchange two_inlets (fun _ => 0) (fun _ => 0) nothing_read in
  inlets got = inlets two_inlets /\ outlets got = outlets two_inlets
  /\ is_inlet_normal_available got = is_inlet_normal_available two_inlets
  /\ (forall n, (Z.of_nat n < inlets two_inlets)%Z ->
        inlet_density_avg got n = inlet_density_avg two_inlets n
        /\ inlet_density_amp got n = inlet_density_amp two_inlets n
        /\ inlet_density_phs got n = inlet_density_phs two_inlets n)
  /\ (forall n, (Z.of_nat n < outlets two_inlets)%Z ->
        outlet_density_avg got n = outlet_density_avg two_inlets n
        /\ outlet_density_amp got n = outlet_density_amp two_inlets n
        /\ outlet_density_phs got n = outlet_density_phs two_inlets n)
  /\ (is_inlet_normal_available two_inlets <> 0%Z ->
      forall n k, (Z.of_nat n < inlets two_inlets)%Z -> (k < 3)%nat ->
        inlet_normal got (3 * n + k)%nat
        = inlet_normal two_inlets (3 * n + k)%nat).
Proof.
  apply (parameters_reach_every_process two_inlets (fun _ => 0) (fun _ => 0)
                                        nothing_read);
    cbn [inlets outlets is_inlet_normal_available two_inlets]; lia.
Defined.
End ReadParametersFacts.

(* ================================================================== *)
(** * Walls after a whole pass, negative coordinates, empty registries *)
(* ================================================================== *)

Module WallSlotFacts.
Import D3Q15 D3Q15Facts ImplGuoZhengShi ImplGuoZhengShiFacts.
Import WallTreatment MassConservation Examples Slots PassFacts.
Local Open Scope R_scope.

Ltac evaluate :=
  cbv - [IZR INR Rplus Rmult Rminus Rdiv Rinv Ropp Rlt_dec Rle_dec Rgt_dec].

Ltac componentwise :=
  repeat match goal with |- (_, _) = (_, _) => apply f_equal2 end;
  (lra || field).

Lemma seq_around (first count s : nat) :
  (first <= s < first + count)%nat ->
  seq first count
  = seq first (s - first) ++ s :: seq (S s) (first + count - S s).
Proof.
  intros Hs. replace count with ((s - first) + S (first + count - S s))%nat
    at 1 by lia.
  rewrite seq_app. replace (first + (s - first))%nat with s by lia.
  reflexivity.
Qed.

Lemma slots_in (lat : LocalLatticeData) (s k : nat) :
  In k (slots lat s) ->
  (exists d, (d < NUMVECTORS)%nat /\ k = GetStreamedIndex lat s d)
  \/ (exists l, (l < NUMVECTORS)%nat
                /\ k = (s * NUMVECTORS + nth l INVERSEDIRECTIONS 0)%nat).
Proof.
  unfold slots. intros Hin. apply in_app_or in Hin. destruct Hin as [Hin | Hin].
  - left. apply in_map_iff in Hin. destruct Hin as [d [<- Hd]].
    apply in_seq in Hd. exists d. split; [lia | reflexivity].
  - right. apply in_flat_map in Hin. destruct Hin as [l [Hl Hin]].
    apply in_seq in Hl. destruct (HasBoundary lat s l); [| contradiction].
    destruct Hin as [<- | []]. exists l. unfold NUMVECTORS in *.
    split; [lia | reflexivity].
Qed.

(** X20.  After a whole pass, the own slot of a processed site opposite
    to one of its walls holds the value of the wall treatment,
    [fEq[inverse[d]] + (1 + Omega) * fNeq] for the wall velocity and the
    non-equilibrium part of lines 64-113, provided no site processed
    later streams to that slot: the values the site itself or earlier
    sites stream to it are overwritten. *)
Theorem wall_slot_after_pass (MinsAndMaxes : Type)
    (UpdateMinsAndMaxes :
       bool -> R -> R -> R -> nat -> (nat -> R) -> R ->
       MinsAndMaxes -> LocalLatticeData -> LbmParameters -> MinsAndMaxes)
    (iDoRayTracing : bool) (iFirstIndex iSiteCount : nat)
    (iLbmParams : LbmParameters) (mm : MinsAndMaxes) (lat : LocalLatticeData)
    (s d : nat) (v_x v_y v_z uWall0 uWall1 uWall2 fNeq : R) :
  (iFirstIndex <= s < iFirstIndex + iSiteCount)%nat ->
  (1 <= d < NUMVECTORS)%nat ->
  HasBoundary lat s d = true ->
  (forall s' d', (s < s' < iFirstIndex + iSiteCount)%nat ->
     (d' < NUMVECTORS)%nat ->
     GetStreamedIndex lat s' d'
     <> (s * NUMVECTORS + nth d INVERSEDIRECTIONS 0)%nat) ->
  velocity_at lat s = (v_x, v_y, v_z) ->
  wall_estimate lat s d v_x v_y v_z (non_equilibrium lat s)
  = ((uWall0, uWall1, uWall2), fNeq) ->
  FNew (snd (DoCollisions MinsAndMaxes UpdateMinsAndMaxes iDoRayTracing
                          iFirstIndex iSiteCount iLbmParams mm lat))
       (s * NUMVECTORS + nth d INVERSEDIRECTIONS 0)%nat
  = nth (nth d INVERSEDIRECTIONS 0%nat)
        (CalculateFeq (density_at lat s) uWall0 uWall1 uWall2) 0
    + (1 + Omega iLbmParams) * fNeq.
Proof.
  intros Hs Hd Hb Hlater Hv He.
  rewrite <- (wall_value_eq iLbmParams lat s d v_x v_y v_z
                            uWall0 uWall1 uWall2 fNeq Hv He).
  rewrite DoCollisions_writes, FNew_with_FNew.
  rewrite (seq_around iFirstIndex iSiteCount s Hs), flat_map_app.
  rewrite flat_map_cons_eq, !store_all_app.
  rewrite store_all_untouched.
  - set (m := store_all _ (FNew lat)).
    pose proof (wall_slot iLbmParams (with_FNew lat m) s d Hd Hb) as H.
    rewrite collide_site_writes, FNew_with_FNew in H. exact H.
  - rewrite pass_slots. intros Hin. apply in_flat_map in Hin.
    destruct Hin as [s' [Hs' Hin]]. apply in_seq in Hs'.
    apply slots_in in Hin. destruct Hin as [[d' [Hd' Heq]] | [l [Hl Heq]]].
    + apply (Hlater s' d'); [lia | exact Hd' | symmetry; exact Heq].
    + pose proof (inverse_bound l Hl) as Hbl.
      assert (Hbd : (nth d INVERSEDIRECTIONS 0 < NUMVECTORS)%nat)
        by (apply inverse_bound; lia).
      unfold NUMVECTORS in *. nia.
Qed.

Lemma wall_slot_after_pass_witness :
  FNew (snd (DoCollisions unit no_extrema true 0 2 (mkParams (-1/2)) tt
                          (two_sites one_wall 0.5)))
       (0 * NUMVECTORS + nth 1 INVERSEDIRECTIONS 0)%nat
  = nth (nth 1%nat INVERSEDIRECTIONS 0%nat)
        (CalculateFeq (density_at (two_sites one_wall 0.5) 0) 0 0 0) 0
    + (1 + Omega (mkParams (-1/2))) * (-1/18).
Proof.
  apply wall_slot_after_pass with (v_x := 0) (v_y := 0) (v_z := 0).
  - lia.
  - unfold NUMVECTORS. lia.
  - reflexivity.
  - intros s' d' Hs' Hd'. assert (s' = 1%nat) as -> by lia.
    unfold NUMVECTORS in *. cbn. lia.
  - evaluate. componentwise.
  - evaluate. destruct (Rlt_dec _ _) as [_ | H].
    + componentwise.
    + exfalso. apply H. lra.
Defined.
End WallSlotFacts.

Module ConstructorFacts.
Import ColPixel ColPixelFacts ColPixelOps ColPixelOpsFacts.
Local Open Scope Z_scope.

Lemma to_unsigned_negative (i : Z) :
  - 2 ^ 31 <= i < 0 -> to_unsigned i = i + 2 ^ 32.
Proof.
  intros Hi. unfold to_unsigned. symmetry.
  apply (Z.mod_unique i (2 ^ 32) (-1)); lia.
Qed.

Lemma set_coordinates (u v : Z) (p : t) :
  0 <= u < 2 ^ 32 -> 0 <= v < 2 ^ 32 ->
  observe (SetJ v (SetI u p))
  = mkview (u mod 2 ^ 31) (v mod 2 ^ 31) (IsGlyph p || (2 ^ 31 <=? u))
           (IsStreakline p || (2 ^ 31 <=? v)).
Proof.
  intros Hu Hv.
  pose proof (SetI_observe u p Hu) as HI.
  pose proof (SetJ_observe v (SetI u p) Hv) as HJ.
  pose proof (f_equal vI HI) as H1. pose proof (f_equal vGlyph HI) as H3.
  pose proof (f_equal vStreakline HI) as H4.
  cbn [observe vI vGlyph vStreakline] in H1, H3, H4.
  rewrite HJ, H1, H3, H4. reflexivity.
Qed.

(** X21.  A constructor called with a negative coordinate: the
    conversion of the [int] to [unsigned int] sets bit 31, so a negative
    [iI] makes the pixel a glyph whatever [iIsGlyph] says and a negative
    [iJ] makes it a streakline, and the coordinate reported is the
    argument plus [2^31]. *)
Theorem negative_coordinate_raises_flag (iI iJ : Z) (iIsGlyph : bool) (p : t) :
  (- 2 ^ 31 <= iI < 0 -> 0 <= iJ < 2 ^ 31 ->
   observe (ColPixel_glyph iI iJ iIsGlyph p)
   = mkview (iI + 2 ^ 31) iJ true false)
  /\ (0 <= iI < 2 ^ 31 -> - 2 ^ 31 <= iJ < 0 ->
      observe (ColPixel_glyph iI iJ iIsGlyph p)
      = mkview iI (iJ + 2 ^ 31) iIsGlyph true).
Proof.
  unfold ColPixel_glyph.
  assert (Hflags : forall q, q = SetStreakline false (SetGlyph iIsGlyph p) ->
            IsGlyph q = iIsGlyph /\ IsStreakline q = false).
  { intros q ->.
    pose proof (perform_observe (SetGlyph iIsGlyph p)
                                (CallSetStreakline false) I) as H1.
    pose proof (perform_observe p (CallSetGlyph iIsGlyph) I) as H2.
    cbn [perform remember] in H1, H2. rewrite H2 in H1.
    cbn [vI vJ vGlyph vStreakline] in H1.
    split; [exact (f_equal vGlyph H1) | exact (f_equal vStreakline H1)]. }
  destruct (Hflags _ eq_refl) as [Hg Hs].
  split; intros HI HJ.
  - rewrite (to_unsigned_negative iI HI), (to_unsigned_small iJ HJ).
    rewrite set_coordinates by lia. rewrite Hg, Hs.
    replace ((iI + 2 ^ 32) mod 2 ^ 31) with (iI + 2 ^ 31)
      by (apply (Z.mod_unique _ _ 1); lia).
    rewrite (Z.mod_small iJ) by lia.
    replace (2 ^ 31 <=? iI + 2 ^ 32) with true by (symmetry; apply Z.leb_le; lia).
    replace (2 ^ 31 <=? iJ) with false by (symmetry; apply Z.leb_gt; lia).
    rewrite orb_true_r. reflexivity.
  - rewrite (to_unsigned_negative iJ HJ), (to_unsigned_small iI HI).
    rewrite set_coordinates by lia. rewrite Hg, Hs.
    replace ((iJ + 2 ^ 32) mod 2 ^ 31) with (iJ + 2 ^ 31)
      by (apply (Z.mod_unique _ _ 1); lia).
    rewrite (Z.mod_small iI) by lia.
    replace (2 ^ 31 <=? iJ + 2 ^ 32) with true by (symmetry; apply Z.leb_le; lia).
    replace (2 ^ 31 <=? iI) with false by (symmetry; apply Z.leb_gt; lia).
    rewrite orb_false_r. reflexivity.
Qed.

Lemma negative_coordinate_raises_flag_witness :
  observe (ColPixel_glyph (-1) 480 false (mk 0 0))
  = mkview (-1 + 2 ^ 31) 480 true false
  /\ observe (ColPixel_glyph 640 (-1) false (mk 0 0))
     = mkview 640 (-1 + 2 ^ 31) false true.
Proof.
  split.
  - apply (proj1 (negative_coordinate_raises_flag (-1) 480 false (mk 0 0))); lia.
  - apply (proj2 (negative_coordinate_raises_flag 640 (-1) false (mk 0 0))); lia.
Defined.
End ConstructorFacts.

Module NoConditionFacts.
Import BoundaryConditions ColloidExamples.
Local Open Scope R_scope.

Section Unregistered.
Variable Particle : Type.
Variable GetGlobalPosition : Particle -> LatticePosition.

(** X22.  With no condition registered in any of the three lists, a
    particle whose site is a local fluid site is kept and left as it
    is, also at an edge, inlet or outlet site. *)
Theorem unregistered_conditions_keep_particle
    (reg : Registry Particle) (particle : Particle) :
  boundaryConditionsWall Particle reg = [] ->
  boundaryConditionsInlet Particle reg = [] ->
  boundaryConditionsOutlet Particle reg = [] ->
  fst (fst (GetContiguousSiteId (latticeData Particle reg)
              (site_of_particle Particle GetGlobalPosition particle)))
  = true ->
  DoSomeThingsToParticle Particle GetGlobalPosition reg particle
  = (true, particle).
Proof.
  intros Hw Hi Ho. unfold DoSomeThingsToParticle, site_of_particle.
  destruct (GetContiguousSiteId _ _) as [[isLocalFluid procId] id].
  cbn [fst]. intros ->. cbn [negb]. rewrite Hw, Hi, Ho.
  destruct (negb _ && negb _ && negb _); [reflexivity |].
  destruct (IsEdge _), (SiteType_eqb _ INLET_TYPE),
    (SiteType_eqb _ OUTLET_TYPE); reflexivity.
Qed.
End Unregistered.

Lemma unregistered_conditions_keep_particle_witness :
  DoSomeThingsToParticle LatticePosition (fun p => p)
    (mkRegistry LatticePosition [] [] []
       (uniform_lattice true (mkSiteData INLET_TYPE true) (fun _ => 0.25)))
    (mkVector 1.2 3.4 5.6)
  = (true, mkVector 1.2 3.4 5.6).
Proof.
  apply unregistered_conditions_keep_particle; reflexivity.
Defined.
End NoConditionFacts.
